(** * albumentations/core/transforms_interface.py: a shallow embedding

    The definitions follow the source file top to bottom:
    - [Range]: the function [to_tuple];
    - [Numpy]: the fragment of numpy arrays the batch classes rely on
      (shapes, [len], reading an item, item assignment with
      broadcasting, [array_equal]);
    - [Py]: the Python values a transform is called with;
    - [Batch]: [BatchInternalType], [Floats4Internal],
      [BBoxesInternalType] and [KeypointsInternalType];
    - [Transform]: [BasicTransform], [ImageOnlyTransform] and
      [DualTransform]; a call runs in a small state and error monad that
      threads the random source, the objects passed by name and a record
      of the calls made; the export of a transform's configuration.
    The properties come after the definitions: first those of the
    specification, in the order of the source, then further properties
    of the same functions.

    Python [int] is [Z]. In [Range] a Python [float] is an IEEE 754
    binary64 number, with its rounding, its infinities and NaN, as the
    Standard Library specifies it ([SpecFloat]). In the arrays of
    [Numpy] and for the draws of the random source a [float] is
    modelled by a rational [Q]: nothing is computed with them there but
    comparisons, and rounding, infinities and NaN are outside that part
    of the model. The objects a transform is called with are taken to
    be different objects under different names: one batch passed under
    two names is outside the model. Exceptions are values of [exn]; a
    call that can raise returns a [result]. *)

From Stdlib Require Import QArith ZArith Lia.
From Stdlib Require SpecFloat.
From stdpp Require Import gmap strings list fin_maps.

Set Default Proof Using "Type".

(** ** Exceptions and results *)

Inductive exn :=
| KeyError
| TypeError
| ValueError
| IndexError
| AttributeError
| AssertionError
| NotImplementedError
| OverflowError
| IllTyped.
(* [IllTyped] marks a call whose argument lies outside the annotated type
   of the Python function and outside the values modelled here; what
   Python does there (duck typing) is not described case by case. *)

Inductive result (A : Type) :=
| Ok (a : A)
| Raise (e : exn).
Arguments Ok {A} a.
Arguments Raise {A} e.

#[global] Instance result_ret : MRet result := fun _ a => Ok a.
#[global] Instance result_bind : MBind result := fun _ _ f r =>
  match r with
  | Ok a => f a
  | Raise e => Raise e
  end.

#[global] Instance result_fmap : FMap result := fun _ _ f r =>
  match r with
  | Ok a => Ok (f a)
  | Raise e => Raise e
  end.

Definition is_ok {A} (r : result A) : bool :=
  match r with Ok _ => true | Raise _ => false end.

(** Strict comparison of two floats, the Python [<]. *)
Definition Qltb (a b : Q) : bool :=
  match (a ?= b)%Q with Lt => true | _ => false end.

(** ** to_tuple *)

Module Range.
Import SpecFloat.

(** *** Python numbers *)

(** The numbers [isinstance(param, (int, float))] accepts: [int], which
    is unbounded ([bool] is an [int]), and [float], which is IEEE 754
    binary64, taken from the Standard Library's specification of it
    ([spec_float], with [prec = 53] and [emax = 1024]): signed zeros,
    infinities, one NaN, and [(-1)^s * m * 2^e]. *)
Inductive num :=
| Int (z : Z)
| Float (f : spec_float).

Definition prec : Z := 53.
Definition emax : Z := 1024.


(** [-x] *)
Definition neg (x : num) : num :=
  match x with
  | Int z => Int (- z)
  | Float f => Float (SFopp f)
  end.

(** The conversion of an [int] that meets a [float] in an operation:
    round to nearest, ties to even; an [int] that rounds beyond the
    largest float raises [OverflowError]. *)
Definition float_of_int (z : Z) : result spec_float :=
  match binary_normalize prec emax z 0 false with
  | S754_infinity _ => Raise OverflowError
  | f => Ok f
  end.

(** [x + y]: exact on two [int]s, the rounded sum of binary64 as soon
    as one of them is a [float]. *)
Definition add (x y : num) : result num :=
  match x, y with
  | Int a, Int b => Ok (Int (a + b))
  | Float a, Float b => Ok (Float (SFadd prec emax a b))
  | Int a, Float b => a' ← float_of_int a; Ok (Float (SFadd prec emax a' b))
  | Float a, Int b => b' ← float_of_int b; Ok (Float (SFadd prec emax a b'))
  end.

(** An [int] against a [float]: Python compares the two exactly, with
    no conversion. [z] against [(-1)^s * m * 2^e]: *)
Definition scaled (z : Z) (s : bool) (m : positive) (e : Z) : comparison :=
  if (0 <=? e)%Z
  then (z ?= cond_Zopp s (Zpos m) * 2 ^ e)%Z
  else (z * 2 ^ (- e) ?= cond_Zopp s (Zpos m))%Z.

Definition int_float_compare (z : Z) (f : spec_float) : option comparison :=
  match f with
  | S754_nan => None
  | S754_infinity s => Some (if s then Gt else Lt)
  | S754_zero _ => Some (z ?= 0)%Z
  | S754_finite s m e => Some (scaled z s m e)
  end.

(** The order of two numbers; there is none when one of them is NaN. *)
Definition compare (x y : num) : option comparison :=
  match x, y with
  | Int a, Int b => Some (a ?= b)%Z
  | Float a, Float b => SFcompare a b
  | Int a, Float b => int_float_compare a b
  | Float a, Int b => CompOpp <$> int_float_compare b a
  end.

(** [x < y] and [x <= y]: false when there is no order. *)
Definition lt (x y : num) : bool :=
  match compare x y with
  | Some Lt => true
  | _ => false
  end.

Definition le (x y : num) : bool :=
  match compare x y with
  | Some (Lt | Eq) => true
  | _ => false
  end.

(** *** The arguments of [to_tuple] *)

(** The values [param] is taken from: [None], a number, a [str], any
    other [Sequence] (a list, a tuple, a range) given by its items, and
    [OOther], an object that is neither ([isinstance] says no to both
    tests) and takes no part in arithmetic with numbers: a [dict], a
    [set]. The items of a sequence are such values again. [low] and
    [bias] are numbers or [None], as the docstring has them. *)
#[local] Unset Elimination Schemes.
Inductive obj :=
| ONone
| ONum (n : num)
| OStr (s : string)
| OSeq (l : list obj)
| OOther.
#[local] Set Elimination Schemes.

(** The items of a string are its characters, strings of length one. *)
Fixpoint chars (s : string) : list obj :=
  match s with
  | EmptyString => []
  | String c s' => OStr (String c EmptyString) :: chars s'
  end.

(** [isinstance(param, Sequence)], and then the items [tuple(param)]
    and [len(param)] see. *)
Definition items (p : obj) : option (list obj) :=
  match p with
  | OSeq l => Some l
  | OStr s => Some (chars s)
  | _ => None
  end.

(** [bias + x] for a number [bias]: only a number can be added to it. *)
Definition bias_add (bias : num) (x : obj) : result obj :=
  match x with
  | ONum v => ONum <$> add bias v
  | _ => Raise TypeError
  end.

Definition to_tuple (param : obj) (low bias : option num)
  : result (option (obj * obj)) :=
  match low, bias with
  | Some _, Some _ => Raise ValueError
  | _, _ =>
    match param with
    | ONone => Ok None
    | _ =>
      pr ← match param with
           | ONum v =>
               match low with
               | None => Ok (ONum (neg v), ONum v)
               | Some l =>
                   Ok (if lt l v then (ONum l, ONum v) else (ONum v, ONum l))
               end
           | _ =>
               match items param with
               | Some [a; b] => Ok (a, b)
               | Some _ => Raise ValueError
               | None => Raise ValueError
               end
           end;
      match bias with
      | Some b =>
          x ← bias_add b pr.1;
          y ← bias_add b pr.2;
          Ok (Some (x, y))
      | None => Ok (Some pr)
      end
    end
  end.

End Range.

(** ** The numpy fragment *)

Module Numpy.

(** An array is its shape and its elements in row-major order. *)
Record ndarray (A : Type) := NdArray { shape : list nat; data : list A }.
Arguments NdArray {A} shape data.
Arguments shape {A} _.
Arguments data {A} _.

Definition size_of (sh : list nat) : nat := foldr Nat.mul 1 sh.

(** [length data = size_of shape]: what every numpy array satisfies. *)
Definition wf {A} (a : ndarray A) : Prop :=
  length (data a) = size_of (shape a).

(** [len(a)]; a 0-d array is unsized. *)
Definition len {A} (a : ndarray A) : result nat :=
  match shape a with
  | [] => Raise TypeError
  | n :: _ => Ok n
  end.

(** [np.empty(sh)], used by the source with a zero dimension only. *)
Definition empty {A} (sh : list nat) : ndarray A := NdArray sh [].

(** [np.array(rows, dtype=...)] on a plain sequence of plain sequences
    of scalars: the empty sequence gives shape [(0,)], rows of one
    length [w] give [(n, w)], ragged rows are refused. *)
Definition array {A} (rows : list (list A)) : result (ndarray A) :=
  match rows with
  | [] => Ok (NdArray [0] [])
  | r :: _ =>
      if forallb (λ r', length r' =? length r) rows
      then Ok (NdArray [length rows; length r] (concat rows))
      else Raise ValueError
  end.

(** [a.astype(float)]: a copy; the elements are floats already. *)
Definition astype_float (a : ndarray Q) : ndarray Q := a.

(** *** Indices: an integer or a slice [start:stop:step] *)

Inductive index :=
| IInt (i : Z)
| ISlice (start stop step : option Z).

Definition normalize_index (i : Z) (n : nat) : result nat :=
  if bool_decide (0 ≤ i < Z.of_nat n)%Z then Ok (Z.to_nat i)
  else if bool_decide (- Z.of_nat n ≤ i < 0)%Z
  then Ok (Z.to_nat (i + Z.of_nat n))
  else Raise IndexError.

(** The rows a slice selects on an axis of length [n]
    (Python's [slice.indices]). *)
Definition slice_rows (start stop step : option Z) (n : nat)
  : result (list nat) :=
  let step := default 1%Z step in
  if bool_decide (step = 0)%Z then Raise ValueError else
  let neg := bool_decide (step < 0)%Z in
  let lower := if neg then (-1)%Z else 0%Z in
  let upper := if neg then (Z.of_nat n - 1)%Z else Z.of_nat n in
  let adjust x :=
    if bool_decide (x < 0)%Z
    then Z.max (x + Z.of_nat n) lower else Z.min x upper in
  let start :=
    match start with
    | None => if neg then upper else lower
    | Some s => adjust s
    end in
  let stop :=
    match stop with
    | None => if neg then lower else upper
    | Some s => adjust s
    end in
  let count :=
    if neg
    then (if bool_decide (stop < start)%Z
          then ((start - stop - 1) / (- step) + 1)%Z else 0%Z)
    else (if bool_decide (start < stop)%Z
          then ((stop - start - 1) / step + 1)%Z else 0%Z) in
  Ok (map (λ k : nat, Z.to_nat (start + Z.of_nat k * step))
        (seq 0 (Z.to_nat count))).

(** *** Assignment [a[idx] = v] with broadcasting *)

(** [k] consecutive chunks of [sz] elements. *)
Fixpoint chunks {A} (k sz : nat) (d : list A) : list (list A) :=
  match k with
  | 0 => []
  | S k' => take sz d :: chunks k' sz (drop sz d)
  end.

(** Broadcast the elements [d] of an array of shape [src] to the shape
    [dst] of the same rank: a dimension is kept when it agrees and
    repeated when the source has 1 there. *)
Fixpoint broadcast_to {A} (dst src : list nat) (d : list A)
  : option (list A) :=
  match dst, src with
  | [], [] => Some d
  | n :: dst', m :: src' =>
      if decide (m = n) then
        rs ← mapM (broadcast_to dst' src') (chunks m (size_of src') d);
        Some (concat rs)
      else if decide (m = 1) then
        r ← broadcast_to dst' src' d; Some (concat (replicate n r))
      else None
  | _, _ => None
  end.

(** A source of higher rank may only carry unit dimensions in front. *)
Fixpoint strip_ones (k : nat) (sh : list nat) : option (list nat) :=
  match k, sh with
  | 0, _ => Some sh
  | S k', 1 :: sh' => strip_ones k' sh'
  | _, _ => None
  end.

Definition align (dst src : list nat) : option (list nat) :=
  if length dst <=? length src
  then strip_ones (length src - length dst) src
  else Some (replicate (length dst - length src) 1 ++ src).

(** The elements written into a region of shape [dst] by the value [v]. *)
Definition assign_into {A} (dst : list nat) (v : ndarray A)
  : result (list A) :=
  match src ← align dst (shape v); broadcast_to dst src (data v) with
  | Some r => Ok r
  | None => Raise ValueError
  end.

Definition write_row {A} (sz p : nat) (r d : list A) : list A :=
  take (p * sz) d ++ r ++ drop ((p + 1) * sz) d.

Definition write_rows {A} (sz : nat) (ps : list nat) (r d : list A) : list A :=
  foldl (λ d' pr, write_row sz pr.1 pr.2 d') d (zip ps (chunks (length ps) sz r)).

(** [a[idx] = v], performed in place: the shape never changes. *)
Definition setitem {A} (a : ndarray A) (idx : index) (v : ndarray A)
  : result (ndarray A) :=
  match shape a with
  | [] => Raise IndexError
  | n :: rest =>
      match idx with
      | IInt i =>
          p ← normalize_index i n;
          r ← assign_into rest v;
          Ok (NdArray (n :: rest) (write_row (size_of rest) p r (data a)))
      | ISlice start stop step =>
          ps ← slice_rows start stop step n;
          r ← assign_into (length ps :: rest) v;
          Ok (NdArray (n :: rest) (write_rows (size_of rest) ps r (data a)))
      end
  end.

(** [a[idx] = v] when [a] has [dtype=object]. An integer index into a
    one-dimensional array addresses a single element, which takes the
    array [v] itself as its content; elements that are arrays are not
    modelled. Every other assignment broadcasts as above. *)
Definition setitem_object {A} (a : ndarray A) (idx : index) (v : ndarray A)
  : result (ndarray A) :=
  match shape a, idx with
  | [n], IInt i => _ ← normalize_index i n; Raise IllTyped
  | _, _ => setitem a idx v
  end.

(** The [i]-th item met when iterating over [a]. *)
Definition row {A} (a : ndarray A) (i : nat) : ndarray A :=
  let rest := tail (shape a) in
  NdArray rest (take (size_of rest) (drop (i * size_of rest) (data a))).

(** [np.array_equal(a, b)] *)
Definition array_equal {A} (eqb : A → A → bool) (a b : ndarray A) : bool :=
  bool_decide (shape a = shape b)
  && forallb (λ xy, eqb xy.1 xy.2) (zip (data a) (data b)).

(** *** Reading [a[idx]] *)

(** [a[idx]]: an integer selects one item along the first axis (for a
    one-dimensional array a scalar, held here as a 0-d array), a slice
    the rows it names, in its order. *)
Definition getitem {A} (a : ndarray A) (idx : index) : result (ndarray A) :=
  match shape a with
  | [] => Raise IndexError
  | n :: rest =>
      match idx with
      | IInt i => p ← normalize_index i n; Ok (row a p)
      | ISlice start stop step =>
          ps ← slice_rows start stop step n;
          Ok (NdArray (length ps :: rest)
                (concat (map (λ p, data (row a p)) ps)))
      end
  end.

(** [x[np.newaxis, :]]: a unit axis in front. A scalar has no axis for
    the [:]; it raises [scalar], the exception of its type. *)
Definition newaxis {A} (scalar : exn) (x : ndarray A) : result (ndarray A) :=
  match shape x with
  | [] => Raise scalar
  | sh => Ok (NdArray (1 :: sh) (data x))
  end.

End Numpy.

(** ** Python values *)

Module Py.
Import Numpy.

(** An opaque per-record annotation (an element of a [dtype=object]
    array): a class index or a label. *)
Inductive pyobj :=
| OInt (z : Z)
| OStr (s : string).

#[global] Instance pyobj_eq_dec : EqDecision pyobj.
Proof. solve_decision. Defined.

(** The two concrete batch classes. [Floats4Internal] itself cannot be
    instantiated: its [assert_array_format] raises. *)
Inductive kind :=
| BBoxesInternalType
| KeypointsInternalType.

#[global] Instance kind_eq_dec : EqDecision kind.
Proof. solve_decision. Defined.

(** A constructed batch. The field [array] always holds an [ndarray]:
    every assignment to it goes through [__setattr__]. *)
Record batch := Batch {
  cls : kind;
  array : ndarray Q;
  targets : ndarray pyobj
}.

(** The values passed to a transform by name, and the values of its
    parameters: [None], numbers, numeric buffers (image, mask), lists,
    batches, and the dictionary a pipeline passes to record parameters
    in, keyed by [id(transform)]. *)
#[local] Unset Elimination Schemes.
Inductive value :=
| VNone
| VInt (z : Z)
| VFloat (q : Q)
| VArray (a : ndarray Q)
| VList (l : list value)
| VBatch (b : batch)
| VStore (s : gmap Z (gmap string value)).
#[local] Set Elimination Schemes.

End Py.

(** ** BatchInternalType and its subclasses *)

Module Batch.
Import Numpy Py.

(** What a caller may pass as [array]: a numpy array or a plain
    sequence of plain sequences. *)
Inductive pyarr :=
| Nd (a : ndarray Q)
| Seq (rows : list (list Q)).

(** [BBoxesInternalType.assert_array_format] *)
Definition bboxes_assert_array_format (bboxes : pyarr) : result unit :=
  match bboxes with
  | Seq _ => Raise TypeError
  | Nd a =>
      n ← len a;
      if bool_decide (n ≠ 0) then
        if bool_decide (length (shape a) = 2)
           && from_option (λ w, bool_decide (w = 4)) false (last (shape a))
        then Ok ()
        else Raise ValueError
      else Ok ()
  end.

(** [KeypointsInternalType.assert_array_format] *)
Definition keypoints_assert_array_format (keypoints : pyarr) : result unit :=
  match keypoints with
  | Seq _ => Raise TypeError
  | Nd a =>
      n ← len a;
      if bool_decide (n ≠ 0) then
        if bool_decide (length (shape a) = 2)
           && from_option (λ w, bool_decide (2 ≤ w ≤ 4)) false (last (shape a))
        then Ok ()
        else Raise ValueError
      else Ok ()
  end.

(** [self.assert_array_format]: resolved on the class of [self]. *)
Definition assert_array_format (k : kind) : pyarr → result unit :=
  match k with
  | BBoxesInternalType => bboxes_assert_array_format
  | KeypointsInternalType => keypoints_assert_array_format
  end.

(** [check_consistency], the same in both classes ([targets] is never
    [None] here). *)
Definition check_consistency (self : batch) : result unit :=
  n ← len (array self);
  m ← len (targets self);
  if bool_decide (n ≠ m) then Raise ValueError
  else assert_array_format (cls self) (Nd (array self)).

(** *** Construction *)

(** The attributes of an instance while the generated [__init__] runs. *)
Record raw := Raw {
  raw_array : option pyarr;
  raw_targets : option (ndarray pyobj)
}.

Inductive attr :=
| Array (value : pyarr)
| Targets (value : ndarray pyobj).

(** [BatchInternalType.__setattr__(self, key, value)] *)
Definition __setattr__ (k : kind) (self : raw) (kv : attr) : result raw :=
  match kv with
  | Array value =>
      _ ← assert_array_format k value;
      Ok (Raw (Some value) (raw_targets self))
  | Targets value => Ok (Raw (raw_array self) (Some value))
  end.

Definition getattr {A} (field : option A) : result A :=
  match field with
  | Some v => Ok v
  | None => Raise AttributeError
  end.

(** [BatchInternalType.__post_init__]. Metadata is modelled as an
    object array, so the branch converting non-array [targets] has no
    counterpart. *)
Definition __post_init__ (k : kind) (self : raw) : result batch :=
  a ← getattr (raw_array self);
  self ← match a with
         | Seq rows =>
             arr ← Numpy.array rows;
             __setattr__ k self (Array (Nd arr))
         | Nd x => __setattr__ k self (Array (Nd (astype_float x)))
         end;
  a ← getattr (raw_array self);
  match a with
  | Seq _ => Raise AttributeError
  | Nd arr =>
      t ← getattr (raw_targets self);
      n ← len arr;
      self ← (if bool_decide (n ≠ 0) then
                match shape t with
                | [] => Raise IndexError
                | 0 :: _ => __setattr__ k self (Targets (empty [n; 0]))
                | _ => Ok self
                end
              else Ok self);
      t ← getattr (raw_targets self);
      let b := Batch k arr t in
      _ ← check_consistency b;
      Ok b
  end.

(** The [__init__] that [@dataclass] generates: assign the fields in
    order, an omitted [targets] coming from the default factory
    [np.empty((0, 0), dtype=object)], then call [__post_init__]. *)
Definition __init__ (k : kind) (array : pyarr)
    (targets : option (ndarray pyobj)) : result batch :=
  self ← __setattr__ k (Raw None None) (Array array);
  self ← __setattr__ k self (Targets (default (empty [0; 0]) targets));
  __post_init__ k self.

(** *** Floats4Internal *)

Definition __len__ (self : batch) : result nat :=
  n ← len (array self);
  m ← len (targets self);
  if bool_decide (n = m) then Ok n else Raise AssertionError.

(** [Floats4Internal.__setitem__]: two array assignments in sequence.
    The second component is [self] after the call, whether it raised
    or not. *)
Definition __setitem__ (self : batch) (idx : index) (value : batch)
  : result unit * batch :=
  match setitem (array self) idx (array value) with
  | Raise e => (Raise e, self)
  | Ok a' =>
      let self1 := Batch (cls self) a' (targets self) in
      match setitem_object (targets self) idx (targets value) with
      | Raise e => (Raise e, self1)
      | Ok t' => (Ok (), Batch (cls self) a' t')
      end
  end.

(** [Floats4Internal.__eq__]; [other] is any Python value. The chained
    comparison of the four lengths stops at the first link that fails. *)
Definition __eq__ (self : batch) (other : value) : result bool :=
  match other with
  | VBatch other =>
      if bool_decide (cls other = cls self) then
        let structural :=
          Ok (array_equal Qeq_bool (array self) (array other)
              && array_equal (λ x y, bool_decide (x = y))
                   (targets self) (targets other)) in
        n1 ← len (array self);
        n2 ← len (array other);
        if negb (bool_decide (n1 = n2)) then structural else
        m1 ← len (targets self);
        if negb (bool_decide (n2 = m1)) then structural else
        m2 ← len (targets other);
        if bool_decide (m1 = m2) && bool_decide (m2 = 0) then Ok true
        else structural
      else Raise TypeError
  | _ => Raise TypeError
  end.

(** [Floats4Internal.__getitem__]. An item of a one-dimensional float
    array is a numpy scalar, which refuses the index [(np.newaxis, :)]
    with [IndexError]; an item of a one-dimensional object array is the
    Python object itself ([int], [str]), which refuses it with
    [TypeError]. *)
Definition __getitem__ (self : batch) (item : index) : result batch :=
  _arr ← astype_float <$> getitem (array self) item;
  _target ← getitem (targets self) item;
  match item with
  | IInt _ =>
      _arr ← newaxis IndexError _arr;
      _target ← newaxis TypeError _target;
      __init__ (cls self) (Nd _arr) (Some _target)
  | ISlice _ _ _ => __init__ (cls self) (Nd _arr) (Some _target)
  end.

(** A batch given by its rows: [n] records of width [w] with [m]
    columns of metadata. *)
Definition tabular (b : batch) (rows : list (list Q))
    (trows : list (list pyobj)) (w m : nat) : Prop :=
  array b = NdArray [length rows; w] (concat rows) ∧
  targets b = NdArray [length rows; m] (concat trows) ∧
  length trows = length rows ∧
  Forall (λ r, length r = w) rows ∧
  Forall (λ t, length t = m) trows.

End Batch.

(** ** BasicTransform and DualTransform *)

Module Transform.
Import Numpy Py.

Abbreviation pdict := (gmap string value).
Abbreviation kwargs := (list (string * value)).

(** Modelled from the spec: [cv2.INTER_NEAREST], the nearest-neighbour
    interpolation mode of the OpenCV binding, an integer flag (0). *)
Definition INTER_NEAREST : value := VInt 0.

(** The state of [random]: the floats it will return, in order. *)
Definition rng := nat → Q.

(** The entries of a [targets] table: the bound methods of
    [DualTransform], and the [lambda x, **p: x] used for unknown keys. *)
Inductive handler :=
| Identity
| Apply
| ApplyToMask
| ApplyToMasks
| ApplyToBBoxes
| ApplyToKeypoints.

#[global] Instance handler_eq_dec : EqDecision handler.
Proof. solve_decision. Defined.

Inductive base :=
| BasicTransformBase
| ImageOnlyTransform
| DualTransform.

(** A transform class: the base it derives from and the members a
    subclass supplies. [get_params], [targets_as_params],
    [get_params_dependent_on_targets] and [target_dependence] have
    defaults in [BasicTransform] (see [defaults]); [interpolation],
    [fill_value] and [mask_fill_value] are attributes a subclass may or
    may not set ([hasattr]). *)
Record TransformClass := {
  parent : base;
  apply : value → pdict → result value;
  apply_to_bbox : ndarray Q → pdict → result (list Q);
  apply_to_keypoint : ndarray Q → pdict → result (list Q);
  get_params : rng → result pdict * rng;
  targets_as_params : list string;
  get_params_dependent_on_targets : pdict → rng → result pdict * rng;
  target_dependence : gmap string (list string);
  interpolation : option value;
  fill_value : option value;
  mask_fill_value : option value
}.

(** The members as [BasicTransform] and [DualTransform] define them. *)
Definition defaults (b : base) : TransformClass := {|
  parent := b;
  apply := λ _ _, Raise NotImplementedError;
  apply_to_bbox := λ _ _, Raise NotImplementedError;
  apply_to_keypoint := λ _ _, Raise NotImplementedError;
  get_params := λ g, (Ok ∅, g);
  targets_as_params := [];
  get_params_dependent_on_targets := λ _ g, (Raise NotImplementedError, g);
  target_dependence := ∅;
  interpolation := None;
  fill_value := None;
  mask_fill_value := None
|}.

(** The fields [BasicTransform.__init__] sets; [id] is [id(self)]. *)
Record BasicTransform := {
  id : Z;
  p : Q;
  always_apply : bool;
  _additional_targets : gmap string string;
  deterministic : bool;
  save_key : string;
  params : option pdict;
  replay_mode : bool;
  applied_in_replay : bool
}.

Definition __init__ (id : Z) (always_apply : bool) (p : Q) : BasicTransform := {|
  id := id;
  p := p;
  always_apply := always_apply;
  _additional_targets := ∅;
  deterministic := false;
  save_key := "replay";
  params := Some ∅;
  replay_mode := false;
  applied_in_replay := false
|}.

Definition add_targets (self : BasicTransform)
    (additional_targets : gmap string string) : BasicTransform :=
  {| id := id self;
     p := p self;
     always_apply := always_apply self;
     _additional_targets := additional_targets;
     deterministic := deterministic self;
     save_key := save_key self;
     params := params self;
     replay_mode := replay_mode self;
     applied_in_replay := applied_in_replay self |}.

Definition set_deterministic (self : BasicTransform) (flag : bool)
    (save_key : string) : result BasicTransform :=
  if bool_decide (save_key = "params") then Raise AssertionError
  else Ok {| id := id self;
             p := p self;
             always_apply := always_apply self;
             _additional_targets := _additional_targets self;
             deterministic := flag;
             save_key := save_key;
             params := params self;
             replay_mode := replay_mode self;
             applied_in_replay := applied_in_replay self |}.

(** The [targets] property. *)
Definition targets (C : TransformClass) : result (gmap string handler) :=
  match parent C with
  | BasicTransformBase => Raise NotImplementedError
  | ImageOnlyTransform => Ok {[ "image" := Apply ]}
  | DualTransform =>
      Ok (<["image" := Apply]>
          (<["mask" := ApplyToMask]>
           (<["masks" := ApplyToMasks]>
            (<["bboxes" := ApplyToBBoxes]>
             (<["keypoints" := ApplyToKeypoints]> ∅)))))
  end.

Definition _get_target_function (C : TransformClass) (self : BasicTransform)
    (key : string) : result handler :=
  let transform_key :=
    if bool_decide (is_Some (_additional_targets self !! key))
    then default key (_additional_targets self !! key)
    else key in
  tbl ← targets C;
  Ok (default Identity (tbl !! transform_key)).

(** *** Effects of a call *)

(** What a call does that its result does not show: calls to the random
    source, to the members a subclass supplies and to target functions. *)
Inductive call :=
| CRandom
| CGetParams
| CGetParamsDependentOnTargets (targets_as_params : pdict)
| CTarget (key : string) (h : handler) (arg : value) (params : pdict).

(** The state a call runs in: the random source, the objects the caller
    passed by name in their current state (a target function may write
    into its argument), and the calls made so far. An exception leaves
    the state as it is at the point of the [raise]. *)
Record world := World {
  random_state : rng;
  objects : kwargs;
  calls : list call
}.

Definition M (A : Type) : Type := world → result A * world.

#[global] Instance M_ret : MRet M := λ _ a w, (Ok a, w).
#[global] Instance M_bind : MBind M := λ _ _ f m w,
  match m w with
  | (Ok a, w') => f a w'
  | (Raise e, w') => (Raise e, w')
  end.

Definition raise {A} (e : exn) : M A := λ w, (Raise e, w).

Definition lift {A} (r : result A) : M A := λ w, (r, w).

Definition log (c : call) : M unit := λ w,
  (Ok (), World (random_state w) (objects w) (calls w ++ [c])).

(** [random.random()] *)
Definition random_random : M Q := λ w,
  (Ok (random_state w 0),
   World (λ n, random_state w (S n)) (objects w) (calls w ++ [CRandom])).

(** A member that may draw random numbers. *)
Definition draw {A} (c : call) (f : rng → result A * rng) : M A := λ w,
  let '(r, g) := f (random_state w) in
  (r, World g (objects w) (calls w ++ [c])).

(** The mapping [kwargs] of the call. *)
Definition get_kwargs : M kwargs := λ w, (Ok (objects w), w).

Fixpoint getitem (key : string) (kw : kwargs) : result value :=
  match kw with
  | [] => Raise KeyError
  | (k, v) :: kw' => if bool_decide (k = key) then Ok v else getitem key kw'
  end.

(** The object passed as [key] has been written into: [v] is its new
    state. No other name is taken to hold the same object. *)
Definition mutate (key : string) (v : value) : M unit := λ w,
  (Ok (),
   World (random_state w)
         (map (λ kv, if bool_decide (kv.1 = key) then (key, v) else kv) (objects w))
         (calls w)).

(** *** DualTransform *)

(** [{k: cv2.INTER_NEAREST if k == "interpolation" else v
      for k, v in params.items()}] *)
Definition nearest (params : pdict) : pdict :=
  map_imap (λ k v, Some (if bool_decide (k = "interpolation")
                         then INTER_NEAREST else v)) params.

Definition apply_to_mask (C : TransformClass) (img : value) (params : pdict)
  : result value :=
  apply C img (nearest params).

(** The items met when iterating over a value: the elements of a list,
    the sub-arrays of an array along its first axis. *)
Definition iterate (v : value) : result (list value) :=
  match v with
  | VList l => Ok l
  | VArray a => n ← len a; Ok (map (λ i, VArray (row a i)) (seq 0 n))
  | VNone | VInt _ | VFloat _ => Raise TypeError
  | VBatch _ | VStore _ => Raise IllTyped
  end.

Fixpoint traverse {A B} (f : A → result B) (l : list A) : result (list B) :=
  match l with
  | [] => Ok []
  | x :: l' => y ← f x; ys ← traverse f l'; Ok (y :: ys)
  end.

Definition apply_to_masks (C : TransformClass) (masks : value) (params : pdict)
  : result value :=
  l ← iterate masks;
  rs ← traverse (λ mask, apply_to_mask C mask params) l;
  Ok (VList rs).

(** The loop of [apply_to_bboxes] and [apply_to_keypoints] over the rows
    [todo] still to visit: [f] is [apply_to_bbox] or [apply_to_keypoint].
    The second component is the batch after the call. *)
Fixpoint apply_to_rows (f : ndarray Q → pdict → result (list Q))
    (params : pdict) (todo : list nat) (b : batch) : result batch * batch :=
  match todo with
  | [] => (Ok b, b)
  | i :: todo' =>
      match f (row (array b) i) params with
      | Raise e => (Raise e, b)
      | Ok r =>
          match setitem (array b) (IInt (Z.of_nat i)) (NdArray [length r] r) with
          | Raise e => (Raise e, b)
          | Ok a' => apply_to_rows f params todo' (Batch (cls b) a' (Py.targets b))
          end
      end
  end.

Definition apply_to_bboxes (C : TransformClass) (bboxes : batch)
    (params : pdict) : result batch * batch :=
  match len (array bboxes) with
  | Raise e => (Raise e, bboxes)
  | Ok n => apply_to_rows (apply_to_bbox C) params (seq 0 n) bboxes
  end.

Definition apply_to_keypoints (C : TransformClass) (keypoints : batch)
    (params : pdict) : result batch * batch :=
  match len (array keypoints) with
  | Raise e => (Raise e, keypoints)
  | Ok n => apply_to_rows (apply_to_keypoint C) params (seq 0 n) keypoints
  end.

(** [target_function(arg, **params)] for the object passed as [key]. *)
Definition call_target (C : TransformClass) (key : string) (h : handler)
    (arg : value) (params : pdict) : M value :=
  _ ← log (CTarget key h arg params);
  match h with
  | Identity => mret arg
  | Apply => lift (apply C arg params)
  | ApplyToMask => lift (apply_to_mask C arg params)
  | ApplyToMasks => lift (apply_to_masks C arg params)
  | ApplyToBBoxes | ApplyToKeypoints =>
      match arg with
      | VBatch b =>
          let '(r, b') :=
            match h with
            | ApplyToBBoxes => apply_to_bboxes C b params
            | _ => apply_to_keypoints C b params
            end in
          _ ← mutate key (VBatch b');
          lift (VBatch <$> r)
      | _ => raise AttributeError
      end
  end.

(** *** BasicTransform *)

(** [update_params]. It writes into the dict it is given and returns it;
    the model returns the updated mapping. (In replay mode the dict is
    [self.params]; nothing reads the instance's copy back within a call,
    and the model leaves the instance as it is.) *)
Definition update_params (C : TransformClass) (params : pdict) (kw : kwargs)
  : result pdict :=
  let params :=
    from_option (λ v, <["interpolation" := v]> params) params (interpolation C) in
  let params :=
    from_option (λ v, <["fill_value" := v]> params) params (fill_value C) in
  let params :=
    from_option (λ v, <["mask_fill_value" := v]> params) params (mask_fill_value C) in
  image ← getitem "image" kw;
  sh ← match image with
       | VArray a => Ok (shape a)
       | _ => Raise AttributeError
       end;
  cols ← from_option Ok (Raise IndexError) (sh !! 1);
  rows ← from_option Ok (Raise IndexError) (sh !! 0);
  Ok (<["rows" := VInt (Z.of_nat rows)]> (<["cols" := VInt (Z.of_nat cols)]> params)).

(** [{k: kwargs[k] for k in keys}] *)
Fixpoint collect (keys : list string) (kw : kwargs) : result pdict :=
  match keys with
  | [] => Ok ∅
  | k :: keys' =>
      v ← getitem k kw;
      d ← collect keys' kw;
      Ok (<[k := v]> d)
  end.

(** The body of the loop of [apply_with_params] for one item of
    [kwargs.items()]: the value stored in [res[key]]. *)
Definition transform_item (C : TransformClass) (self : BasicTransform)
    (params : pdict) (key : string) (arg : value) : M value :=
  match arg with
  | VNone => mret VNone
  | _ =>
      target_function ← lift (_get_target_function C self key);
      kw ← get_kwargs;
      target_dependencies ←
        lift (collect (default [] (target_dependence C !! key)) kw);
      call_target C key target_function arg (target_dependencies ∪ params)
  end.

(** The loop itself. *)
Fixpoint dispatch (C : TransformClass) (self : BasicTransform)
    (params : pdict) (items : kwargs) : M kwargs :=
  match items with
  | [] => mret []
  | (key, arg) :: items' =>
      r ← transform_item C self params key arg;
      res ← dispatch C self params items';
      mret ((key, r) :: res)
  end.

Definition apply_with_params (C : TransformClass) (self : BasicTransform)
    (params : option pdict) : M kwargs :=
  kw ← get_kwargs;
  match params with
  | None => mret kw
  | Some params =>
      params ← lift (update_params C params kw);
      dispatch C self params kw
  end.

(** [kwargs[self.save_key][id(self)] = deepcopy(params)]; a deep copy of
    a value is the value. An object that is not a dictionary refuses the
    assignment: a list or an array when the index is out of range, a
    batch because its [__setitem__] reads [value.array] first. A list
    with the index in range would take the mapping as an element, which
    is not modelled. *)
Definition record (self : BasicTransform) (params : pdict) : M unit :=
  kw ← get_kwargs;
  store ← lift (getitem (save_key self) kw);
  match store with
  | VStore s => mutate (save_key self) (VStore (<[id self := params]> s))
  | VNone | VInt _ | VFloat _ => raise TypeError
  | VBatch _ => raise AttributeError
  | VArray a =>
      match shape a with
      | [] => raise IndexError
      | n :: _ => _ ← lift (normalize_index (id self) n); raise TypeError
      end
  | VList l => _ ← lift (normalize_index (id self) (length l)); raise IllTyped
  end.

(** The body of [if (random.random() < self.p) or self.always_apply or
    force_apply:] in [__call__], in two parts. First the parameters:
    [get_params()], updated with [get_params_dependent_on_targets] when
    the class names [targets_as_params]. *)
Definition generate (C : TransformClass) : M pdict :=
  params ← draw CGetParams (get_params C);
  match targets_as_params C with
  | [] => mret params
  | keys =>
      kw ← get_kwargs;
      if forallb (λ key, is_ok (getitem key kw)) keys then
        targets_as_params ← lift (collect keys kw);
        params_dependent_on_targets ←
          draw (CGetParamsDependentOnTargets targets_as_params)
               (get_params_dependent_on_targets C targets_as_params);
        mret (params_dependent_on_targets ∪ params)
      else raise AssertionError
  end.

(** Then the recording and the dispatch. The warning issued for a
    deterministic transform with [targets_as_params] has no effect on
    the call. *)
Definition fire (C : TransformClass) (self : BasicTransform) : M kwargs :=
  params ← generate C;
  _ ← (if deterministic self then record self params else mret ());
  apply_with_params C self (Some params).

Definition __call__ (C : TransformClass) (self : BasicTransform)
    (args : list value) (force_apply : bool) : M kwargs :=
  match args with
  | _ :: _ => raise KeyError
  | [] =>
      if replay_mode self then
        if applied_in_replay self
        then apply_with_params C self (params self)
        else get_kwargs
      else
        r ← random_random;
        if Qltb r (p self) || always_apply self || force_apply
        then fire C self
        else get_kwargs
  end.

(** A call of the transform with positional arguments [args] and named
    arguments [kw], the random source being in state [g]. *)
Definition invoke (C : TransformClass) (self : BasicTransform)
    (args : list value) (force_apply : bool) (kw : kwargs) (g : rng)
  : result kwargs * world :=
  __call__ C self args force_apply (World g kw []).

(** *** Export of the configuration *)

(** The values of a configuration dictionary: the base arguments, the
    class name, the identity, and whatever [getattr] finds. *)
Inductive config :=
| CBool (b : bool)
| CFloat (q : Q)
| CInt (z : Z)
| CStr (s : string)
| CValue (v : value).

(** What the export reads of a class and its instance.
    [class_fullname] is the result of [get_class_fullname()], computed
    by [get_shortest_class_fullname] of the serialization module;
    [get_transform_init_args_names] raises [NotImplementedError] in
    [BasicTransform]; [getattr] is attribute lookup on the instance. *)
Record Serializable := {
  class_fullname : string;
  get_transform_init_args_names : result (list string);
  getattr : string → result config
}.

Definition get_base_init_args (self : BasicTransform) : gmap string config :=
  <["p" := CFloat (p self)]>
    (<["always_apply" := CBool (always_apply self)]> ∅).

(** [{k: getattr(self, k) for k in self.get_transform_init_args_names()}] *)
Fixpoint comprehension (getattr : string → result config)
    (d : gmap string config) (names : list string)
  : result (gmap string config) :=
  match names with
  | [] => Ok d
  | k :: names' => v ← getattr k; comprehension getattr (<[k := v]> d) names'
  end.

Definition get_transform_init_args (S : Serializable)
  : result (gmap string config) :=
  names ← get_transform_init_args_names S;
  comprehension (getattr S) ∅ names.

(** [_to_dict]; [to_dict_private] has the same body. *)
Definition _to_dict (S : Serializable) (self : BasicTransform)
  : result (gmap string config) :=
  let state : gmap string config :=
    {[ "__class_fullname__" := CStr (class_fullname S) ]} in
  let state := get_base_init_args self ∪ state in
  args ← get_transform_init_args S;
  Ok (args ∪ state).

Definition to_dict_private (S : Serializable) (self : BasicTransform)
  : result (gmap string config) :=
  let state : gmap string config :=
    {[ "__class_fullname__" := CStr (class_fullname S) ]} in
  let state := get_base_init_args self ∪ state in
  args ← get_transform_init_args S;
  Ok (args ∪ state).

Definition get_dict_with_id (S : Serializable) (self : BasicTransform)
  : result (gmap string config) :=
  d ← _to_dict S self;
  Ok (<["id" := CInt (id self)]> d).

(** A call fired when it asked the class for parameters. *)
Definition fired (w : world) : Prop := CGetParams ∈ calls w.

(** A computation only adds to the record of calls. *)
Definition grows {A} (m : M A) : Prop :=
  ∀ w, ∃ l, calls (m w).2 = calls w ++ l.

Definition is_target (c : call) : Prop :=
  match c with
  | CTarget _ _ _ _ => True
  | _ => False
  end.

(** A computation leaves the random source alone and calls nothing but
    target functions. *)
Definition quiet {A} (m : M A) : Prop :=
  ∀ w, random_state (m w).2 = random_state w ∧
       ∃ l, calls (m w).2 = calls w ++ l ∧ Forall is_target l.

(** A computation whose result and whose writes depend on the objects
    passed by name only. *)
Definition framed {A} (m : M A) : Prop :=
  ∀ w w', objects w = objects w' →
          (m w).1 = (m w').1 ∧ objects (m w).2 = objects (m w').2.

End Transform.

(** ** Instances used to exercise the statements *)

Module Examples.
Import Numpy Py Transform.

(** A dual transform that draws an offset and moves every coordinate of
    a box by it; the image is returned as it is. *)
Definition Shift : TransformClass := {|
  parent := DualTransform;
  apply := λ img _, Ok img;
  apply_to_bbox := λ bbox params,
    match params !! "dx" with
    | Some (VFloat dx) => Ok (map (λ x, x + dx)%Q (data bbox))
    | _ => Raise KeyError
    end;
  apply_to_keypoint := λ _ _, Raise NotImplementedError;
  get_params := λ g, (Ok {[ "dx" := VFloat (g 0) ]}, λ n, g (S n));
  targets_as_params := [];
  get_params_dependent_on_targets := λ _ g, (Raise NotImplementedError, g);
  target_dependence := ∅;
  interpolation := None;
  fill_value := None;
  mask_fill_value := None
|}.

(** A random source that always returns one half. *)
Definition halves : rng := λ _, (1 # 2)%Q.

(** A 10 by 10 image of zeros. *)
Definition image10 : ndarray Q := NdArray [10; 10] (replicate 100 0%Q).

(** The batch of the single box [[1, 1, 5, 5]] with the metadata [[[]]]. *)
Definition one_box : batch :=
  Batch BBoxesInternalType (NdArray [1; 4] [1; 1; 5; 5]%Q) (NdArray [1; 0] []).

(** An instance of [Shift] with [p = 1.0], made deterministic. *)
Definition recording : BasicTransform := {|
  id := 1;
  p := 1;
  always_apply := false;
  _additional_targets := ∅;
  deterministic := true;
  save_key := "replay";
  params := Some ∅;
  replay_mode := false;
  applied_in_replay := false
|}.

(** The same instance set up by a pipeline to replay the parameters
    [{"dx": 0.5}]. *)
Definition replaying : BasicTransform := {|
  id := 1;
  p := 1;
  always_apply := false;
  _additional_targets := ∅;
  deterministic := false;
  save_key := "replay";
  params := Some {[ "dx" := VFloat (1 # 2) ]};
  replay_mode := true;
  applied_in_replay := true
|}.

(** Two boxes with one column of metadata. *)
Definition two_boxes : batch :=
  Batch BBoxesInternalType (NdArray [2; 4] [1; 1; 5; 5; 2; 2; 6; 6]%Q)
    (NdArray [2; 1] [OStr "a"; OStr "b"]).

(** A dual transform whose parameters depend on the image: it asks for
    the image as a parameter target and passes on the number of its
    dimensions. It has an [interpolation] attribute, moves every
    coordinate of a box by one, and refuses a box with a negative
    coordinate. *)
Definition Strict : TransformClass := {|
  parent := DualTransform;
  apply := λ img _, Ok img;
  apply_to_bbox := λ bbox _,
    if forallb (λ x, negb (Qltb x 0)) (data bbox)
    then Ok (map (λ x, x + 1)%Q (data bbox))
    else Raise ValueError;
  apply_to_keypoint := λ _ _, Raise NotImplementedError;
  get_params := λ g, (Ok ∅, g);
  targets_as_params := ["image"];
  get_params_dependent_on_targets := λ T g,
    match T !! "image" with
    | Some (VArray a) => (Ok {[ "ndim" := VInt (Z.of_nat (length (shape a))) ]}, g)
    | _ => (Raise KeyError, g)
    end;
  target_dependence := ∅;
  interpolation := Some (VInt 1);
  fill_value := None;
  mask_fill_value := None
|}.

(** An image-only transform: every value [x] of the image becomes
    [1 - x]. *)
Definition Invert : TransformClass := {|
  parent := ImageOnlyTransform;
  apply := λ img _,
    match img with
    | VArray a => Ok (VArray (NdArray (shape a) (map (λ x, 1 - x)%Q (data a))))
    | _ => Raise AttributeError
    end;
  apply_to_bbox := λ _ _, Raise NotImplementedError;
  apply_to_keypoint := λ _ _, Raise NotImplementedError;
  get_params := λ g, (Ok ∅, g);
  targets_as_params := [];
  get_params_dependent_on_targets := λ _ g, (Raise NotImplementedError, g);
  target_dependence := ∅;
  interpolation := None;
  fill_value := None;
  mask_fill_value := None
|}.

(** The float [1.0]. *)
Definition one : SpecFloat.spec_float :=
  SpecFloat.S754_finite false 4503599627370496 (-52).

(** A 2 by 2 image. *)
Definition image2 : ndarray Q := NdArray [2; 2] [0; 1; 1; 0]%Q.

(** What the export reads of [NoOp]: no argument names of its own. *)
Definition noop_export : Serializable := {|
  class_fullname := "NoOp";
  get_transform_init_args_names := Ok [];
  getattr := λ _, Raise AttributeError
|}.

End Examples.

(** * Properties *)

Import Numpy Py.

(** Evaluate, deciding the tests that hold by hypothesis. *)
Ltac decided :=
  simpl;
  repeat (first
    [ rewrite bool_decide_eq_true_2 by done
    | rewrite bool_decide_eq_false_2
        by (first [done | intros Hne; by apply Hne]) ];
    simpl).

(** ** to_tuple *)

Lemma Qltb_lt a b : Qltb a b = true ↔ (a < b)%Q.
Proof.
  unfold Qltb. rewrite Qlt_alt. destruct (a ?= b)%Q; split; congruence.
Qed.

Lemma Qltb_ge a b : Qltb a b = false ↔ (b <= a)%Q.
Proof.
  pose proof (Qltb_lt a b) as H. split.
  - intros E. apply Qnot_lt_le. intros L. apply H in L. congruence.
  - intros L. destruct (Qltb a b); [|done].
    exfalso. apply (Qle_not_lt _ _ L). by apply H.
Qed.

Section RangeOrder.
Import SpecFloat Range.

Lemma SFcompare_antisym f1 f2 :
  SFcompare f2 f1 = CompOpp <$> SFcompare f1 f2.
Proof.
  destruct f1 as [s1|s1| |s1 m1 e1], f2 as [s2|s2| |s2 m2 e2];
    try done; try (by destruct s1); try (by destruct s2);
    try (by destruct s1, s2).
  assert (Pos.compare_cont Eq m2 m1 = CompOpp (Pos.compare_cont Eq m1 m2))
    as Hm by (symmetry; apply (Pos.compare_cont_antisym m1 m2 Eq)).
  unfold SFcompare. rewrite (Z.compare_antisym e1 e2), Hm.
  destruct s1, s2; simpl; try done;
    destruct (e1 ?= e2)%Z; simpl; try done;
    by destruct (Pos.compare_cont Eq m1 m2).
Qed.

Lemma compare_antisym x y : compare y x = CompOpp <$> compare x y.
Proof.
  destruct x as [a|a], y as [b|b]; simpl.
  - by rewrite (Z.compare_antisym a b).
  - done.
  - destruct (int_float_compare b a) as [c|]; [|done]. by destruct c.
  - apply SFcompare_antisym.
Qed.




End RangeOrder.

Section RangeClaims.
Import SpecFloat Range.




End RangeClaims.

(** ** Rows of a two-dimensional array *)

Section Rows.
Context {A : Type}.
Implicit Types (d r : list A) (rows : list (list A)).

Lemma chunks_lengths n sz d :
  length d = n * sz → Forall (λ c, length c = sz) (chunks n sz d).
Proof.
  revert d. induction n as [|n IH]; intros d Hd; simpl; [constructor|].
  constructor.
  - rewrite length_take. lia.
  - apply IH. rewrite length_drop. lia.
Qed.

Lemma concat_chunks n sz d :
  length d = n * sz → concat (chunks n sz d) = d.
Proof.
  revert d. induction n as [|n IH]; intros d Hd; simpl.
  - by destruct d.
  - rewrite IH; [apply take_drop|]. rewrite length_drop. lia.
Qed.

(** Broadcasting to the shape the elements already have changes nothing. *)
Lemma broadcast_to_same sh d :
  length d = size_of sh → broadcast_to sh sh d = Some d.
Proof.
  revert d. induction sh as [|n sh IH]; intros d Hd; [done|].
  simpl. rewrite decide_True by done.
  assert (mapM (broadcast_to sh sh) (chunks n (size_of sh) d)
          = Some (chunks n (size_of sh) d)) as ->.
  { apply mapM_Some. apply Forall2_same_length_lookup_2; [done|].
    intros i x y Hx Hy. assert (x = y) as -> by congruence.
    apply IH.
    pose proof (chunks_lengths n (size_of sh) d Hd) as Hl.
    rewrite Forall_lookup in Hl. by apply (Hl i). }
  simpl. by rewrite concat_chunks.
Qed.

Lemma assign_into_same sh d :
  length d = size_of sh → assign_into sh (NdArray sh d) = Ok d.
Proof.
  intros Hd. unfold assign_into, align. simpl.
  rewrite Nat.leb_refl, Nat.sub_diag. simpl.
  by rewrite broadcast_to_same.
Qed.

Lemma length_concat_rows w rows :
  Forall (λ r, length r = w) rows → length (concat rows) = length rows * w.
Proof.
  induction 1 as [|r rows Hr _ IH]; [done|].
  simpl. rewrite length_app. lia.
Qed.

Lemma row_concat n w pre r rem :
  Forall (λ r, length r = w) pre → length r = w →
  row (NdArray [n; w] (concat (pre ++ r :: rem))) (length pre) = NdArray [w] r.
Proof.
  intros Hpre Hr. unfold row. simpl. f_equal.
  rewrite concat_app. simpl.
  rewrite Nat.mul_1_r, <- (length_concat_rows w pre Hpre).
  rewrite drop_app_length. by rewrite take_app_length'.
Qed.

Lemma write_row_concat w pre r r' rem :
  Forall (λ r, length r = w) pre → length r = w →
  write_row w (length pre) r' (concat (pre ++ r :: rem))
  = concat (pre ++ r' :: rem).
Proof.
  intros Hpre Hr. unfold write_row.
  rewrite !concat_app. simpl.
  pose proof (length_concat_rows w pre Hpre) as Hl.
  rewrite take_app_length' by done.
  f_equal. f_equal.
  replace ((length pre + 1) * w) with (length (concat pre) + length r) by lia.
  rewrite drop_app_add'; [|done]. by rewrite drop_app_length.
Qed.

(** Writing a row of the right width over row [length pre]. *)
Lemma setitem_row n w pre r r' rem :
  Forall (λ r, length r = w) pre → length r = w → length r' = w →
  length pre < n →
  setitem (NdArray [n; w] (concat (pre ++ r :: rem)))
          (IInt (Z.of_nat (length pre))) (NdArray [length r'] r')
  = Ok (NdArray [n; w] (concat (pre ++ r' :: rem))).
Proof.
  intros Hpre Hr Hr' Hn. unfold setitem, normalize_index. simpl.
  rewrite bool_decide_eq_true_2 by lia. simpl.
  rewrite Hr', assign_into_same by (simpl; lia). simpl.
  by rewrite Nat2Z.id, Nat.mul_1_r, (write_row_concat w pre r r' rem).
Qed.

End Rows.

(** ** Item assignment keeps arrays well formed *)

Section WellFormed.
Context {A : Type}.
Implicit Types (d r : list A) (sh dst src : list nat).

Lemma size_of_strip_ones k sh sh' :
  strip_ones k sh = Some sh' → size_of sh' = size_of sh.
Proof.
  revert sh. induction k as [|k IH]; intros sh; simpl.
  - by intros [= ->].
  - destruct sh as [|[|[|m]] sh0]; try done.
    intros H. rewrite (IH _ H). simpl. lia.
Qed.

Lemma size_of_ones k sh : size_of (replicate k 1 ++ sh) = size_of sh.
Proof. induction k as [|k IH]; simpl; [done|]. rewrite IH. lia. Qed.

Lemma align_size dst sh src :
  align dst sh = Some src → size_of src = size_of sh.
Proof.
  unfold align. destruct (length dst <=? length sh).
  - apply size_of_strip_ones.
  - intros [= <-]. apply size_of_ones.
Qed.

Lemma broadcast_to_length dst src d r :
  broadcast_to dst src d = Some r →
  length d = size_of src → length r = size_of dst.
Proof.
  revert src d r. induction dst as [|n dst IH]; intros [|m src] d r; simpl;
    try done.
  - by intros [= ->].
  - destruct (decide (m = n)) as [->|Hmn].
    + destruct (mapM _ _) as [rs|] eqn:Hrs; [|done]. simpl.
      intros [= <-] Hd.
      apply mapM_Some in Hrs.
      pose proof (chunks_lengths n (size_of src) d Hd) as Hc.
      assert (Forall (λ r, length r = size_of dst) rs) as Hl.
      { clear Hd. induction Hrs as [|c r cs rs Hcr _ IH']; [constructor|].
        inversion Hc; subst. constructor; [by eapply IH|by apply IH']. }
      rewrite (length_concat_rows _ _ Hl).
      apply Forall2_length in Hrs. rewrite <- Hrs.
      clear. f_equal. revert d. induction n as [|n IHn]; intros d; simpl;
        [done|by rewrite IHn].
    + destruct (decide (m = 1)) as [->|]; [|done].
      destruct (broadcast_to dst src d) as [r0|] eqn:Hr0; [|done]. simpl.
      intros [= <-] Hd.
      rewrite (length_concat_rows (size_of dst)).
      * by rewrite length_replicate.
      * apply Forall_replicate. eapply IH; [done|]. simpl in Hd. lia.
Qed.

Lemma assign_into_length dst (v : ndarray A) r :
  wf v → assign_into dst v = Ok r → length r = size_of dst.
Proof.
  unfold assign_into, wf. intros Hv.
  destruct (align dst (shape v)) as [src|] eqn:Ha; [|done]. simpl.
  destruct (broadcast_to dst src (data v)) as [r'|] eqn:Hb; [|done].
  intros [= <-]. eapply broadcast_to_length; [done|].
  by rewrite (align_size _ _ _ Ha).
Qed.

Lemma write_row_length sz n p r d :
  p < n → length r = sz → length d = n * sz →
  length (write_row sz p r d) = n * sz.
Proof.
  intros Hp Hr Hd. unfold write_row.
  rewrite !length_app, length_take, length_drop. nia.
Qed.

Lemma normalize_index_lt i n p : normalize_index i n = Ok p → p < n.
Proof.
  unfold normalize_index. repeat case_bool_decide; intros [= <-]; lia.
Qed.

Lemma range_up_bound (n start stop st k : Z) :
  (0 < st → 0 ≤ start → stop ≤ n → start < stop →
   0 ≤ k < (stop - start - 1) / st + 1 →
   0 ≤ start + k * st < n)%Z.
Proof.
  intros Hst Hs He Hlt Hk.
  pose proof (Z.mul_div_le (stop - start - 1) st Hst). nia.
Qed.

Lemma range_down_bound (n start stop st k : Z) :
  (st < 0 → start ≤ n - 1 → -1 ≤ stop → stop < start →
   0 ≤ k < (start - stop - 1) / (- st) + 1 →
   0 ≤ start + k * st < n)%Z.
Proof.
  intros Hst Hs He Hlt Hk.
  pose proof (Z.mul_div_le (start - stop - 1) (- st) ltac:(lia)). nia.
Qed.

Lemma slice_rows_lt start stop step n ps :
  slice_rows start stop step n = Ok ps → Forall (λ p, p < n) ps.
Proof.
  unfold slice_rows. cbv zeta.
  set (st := default 1%Z step).
  case_bool_decide as Hst; [done|].
  intros [= <-]. apply Forall_forall. intros p Hp.
  apply list_elem_of_fmap in Hp as (k & -> & Hk).
  apply elem_of_seq in Hk.
  destruct (bool_decide (st < 0)%Z) eqn:Hneg;
    [apply bool_decide_eq_true in Hneg|apply bool_decide_eq_false in Hneg];
    match goal with
    | |- Z.to_nat (?s + _) < _ =>
        match type of Hk with
        | context [bool_decide (?e < s)%Z] =>
            set (e0 := e) in *; set (s0 := s) in *
        | context [bool_decide (s < ?e)%Z] =>
            set (e0 := e) in *; set (s0 := s) in *
        end
    end;
    case_bool_decide as Hlt; try (simpl in Hk; lia).
  - assert (s0 ≤ Z.of_nat n - 1 ∧ -1 ≤ e0)%Z as [Hs He].
    { subst s0 e0. destruct start, stop; repeat case_bool_decide; lia. }
    pose proof (range_down_bound (Z.of_nat n) s0 e0 st (Z.of_nat k)
                  Hneg Hs He Hlt).
    assert (0 ≤ (s0 - e0 - 1) / (- st))%Z by (apply Z.div_pos; lia).
    lia.
  - assert (0 ≤ s0 ∧ e0 ≤ Z.of_nat n)%Z as [Hs He].
    { subst s0 e0. destruct start, stop; repeat case_bool_decide; lia. }
    pose proof (range_up_bound (Z.of_nat n) s0 e0 st (Z.of_nat k)
                  ltac:(lia) Hs He Hlt).
    assert (0 ≤ (e0 - s0 - 1) / st)%Z by (apply Z.div_pos; lia).
    lia.
Qed.

Lemma write_rows_length sz n ps r d :
  Forall (λ p, p < n) ps → length r = length ps * sz → length d = n * sz →
  length (write_rows sz ps r d) = n * sz.
Proof.
  unfold write_rows. intros Hps. revert r d.
  induction Hps as [|p ps Hp _ IH]; intros r d Hr Hd; [done|].
  simpl. apply IH.
  - rewrite length_drop. simpl in Hr. lia.
  - apply write_row_length; [done| |done]. rewrite length_take.
    simpl in Hr. lia.
Qed.

(** [a[idx] = v] keeps as many elements as the shape of [a] announces. *)
Lemma setitem_wf (a v a' : ndarray A) idx :
  wf a → wf v → setitem a idx v = Ok a' → wf a'.
Proof.
  unfold setitem, wf. intros Ha Hv.
  destruct (shape a) as [|n rest]; [done|].
  destruct idx as [i|start stop step].
  - destruct (normalize_index i n) as [p|] eqn:Hp; [simpl|done].
    destruct (assign_into rest v) as [r|] eqn:Hr; [simpl|done].
    intros [= <-]. simpl.
    apply write_row_length;
      [by eapply normalize_index_lt|by eapply assign_into_length|done].
  - destruct (slice_rows start stop step n) as [ps|] eqn:Hps; [simpl|done].
    destruct (assign_into (length ps :: rest) v) as [r|] eqn:Hr; [simpl|done].
    intros [= <-]. simpl.
    apply write_rows_length; [by eapply slice_rows_lt| |done].
    by apply (assign_into_length (length ps :: rest) v).
Qed.

End WellFormed.

(** ** Construction of a batch *)

Section Construction.
Import Batch.

(** Every assignment to [array] is checked by [__setattr__], the one
    made by the generated [__init__] included: a plain sequence never
    gets as far as [__post_init__]. *)
Lemma init_plain_sequence k rows tg :
  __init__ k (Seq rows) tg = Raise TypeError.
Proof. by destruct k. Qed.

(** C3, on the code. A boxes batch built from the plain sequence
    [[1, 1, 5, 5]] with metadata omitted raises [TypeError]; so does
    every plain sequence. *)
Theorem init_bboxes_from_list_raises :
  __init__ BBoxesInternalType (Seq [[1; 1; 5; 5]%Q]) None = Raise TypeError ∧
  ∀ k rows, __init__ k (Seq rows) None = Raise TypeError.
Proof. split; [reflexivity | intros; apply init_plain_sequence]. Qed.

(** The same records passed as an [N]-by-4 array are accepted, and the
    metadata gets one empty row per record. *)
Lemma init_bboxes_from_ndarray n d :
  n ≠ 0 →
  __init__ BBoxesInternalType (Nd (NdArray [n; 4] d)) None
  = Ok (Batch BBoxesInternalType (NdArray [n; 4] d) (empty [n; 0])).
Proof.
  intros Hn. unfold __init__, __post_init__, __setattr__, astype_float.
  decided. unfold check_consistency. by decided.
Qed.

End Construction.

(** ** Equality and item assignment of batches *)

Section BatchOperations.
Import Batch.

Lemma check_consistency_lens b :
  check_consistency b = Ok () →
  ∃ n, len (array b) = Ok n ∧ len (targets b) = Ok n.
Proof.
  unfold check_consistency. intros H.
  destruct (len (array b)) as [n|]; [|done].
  destruct (len (targets b)) as [m|]; [|done].
  exists n. simpl in H. case_bool_decide as Hnm; [done|].
  split; [done|]. f_equal. destruct (decide (n = m)); [done|]. by destruct Hnm.
Qed.

(** C9. Two batches of one class that satisfy the invariants and hold no
    record are equal, whatever the shapes of their arrays; comparing any
    batch with a value that is not a batch of its class raises
    [TypeError]. *)
Theorem eq_empty_batches_and_other_kinds b1 b2 b other :
  cls b2 = cls b1 →
  check_consistency b1 = Ok () →
  check_consistency b2 = Ok () →
  len (array b1) = Ok 0 →
  len (array b2) = Ok 0 →
  (∀ b', other = VBatch b' → cls b' ≠ cls b) →
  __eq__ b1 (VBatch b2) = Ok true ∧ __eq__ b other = Raise TypeError.
Proof.
  intros Hk H1 H2 L1 L2 Hother. split.
  - apply check_consistency_lens in H1 as (n1 & A1 & T1).
    apply check_consistency_lens in H2 as (n2 & A2 & T2).
    rewrite L1 in A1. rewrite L2 in A2.
    injection A1 as <-. injection A2 as <-.
    unfold __eq__. rewrite Hk, L1, L2, T1, T2. by decided.
  - unfold __eq__. destruct other as [| | | | |b'|]; try done.
    rewrite bool_decide_eq_false_2; [done|]. by apply Hother.
Qed.

Lemma eq_empty_batches_witness :
  __eq__ (Batch BBoxesInternalType (NdArray [0; 4] []) (NdArray [0; 0] []))
         (VBatch (Batch BBoxesInternalType (NdArray [0] []) (NdArray [0; 0] [])))
  = Ok true ∧
  __eq__ Examples.two_boxes
         (VBatch (Batch KeypointsInternalType
                    (NdArray [2; 4] [1; 1; 5; 5; 2; 2; 6; 6]%Q)
                    (NdArray [2; 1] [OStr "a"; OStr "b"])))
  = Raise TypeError.
Proof.
  apply eq_empty_batches_and_other_kinds; try reflexivity.
  intros b' [= <-]. discriminate.
Defined.

Lemma setitem_shape {A} (a : ndarray A) idx v a' :
  setitem a idx v = Ok a' → shape a' = shape a.
Proof.
  unfold setitem. destruct (shape a) as [|n rest]; [done|].
  destruct idx as [i|start stop step]; simpl.
  - destruct (normalize_index i n); [simpl|done].
    destruct (assign_into rest v); [simpl|done]. by intros [= <-].
  - destruct (slice_rows start stop step n) as [ps|]; [simpl|done].
    destruct (assign_into (length ps :: rest) v); [simpl|done].
    by intros [= <-].
Qed.

Lemma setitem_object_shape {A} (a : ndarray A) idx v a' :
  setitem_object a idx v = Ok a' → shape a' = shape a.
Proof.
  unfold setitem_object. intros H.
  assert (setitem a idx v = Ok a' → shape a' = shape a) as Hs
    by apply setitem_shape.
  destruct (shape a) as [|n [|m rest]]; [by auto| |by auto].
  destruct idx as [i|start stop step]; [|by auto].
  by destruct (normalize_index i n).
Qed.

Lemma check_consistency_shapes b b' :
  cls b' = cls b →
  shape (array b') = shape (array b) →
  shape (targets b') = shape (targets b) →
  check_consistency b' = check_consistency b.
Proof.
  intros Hk Ha Ht. unfold check_consistency, len.
  rewrite Hk, Ha, Ht.
  destruct (cls b); simpl; unfold len; by rewrite Ha.
Qed.

(** A write that raises after the records were written: the metadata of
    the value has two columns, the batch's has one. *)
Lemma setitem_records_written_before_failure :
  let b := Batch BBoxesInternalType
             (NdArray [1; 4] [1; 1; 5; 5]%Q) (NdArray [1; 1] [OStr "a"]) in
  let v := Batch BBoxesInternalType
             (NdArray [1; 4] [2; 2; 6; 6]%Q)
             (NdArray [1; 2] [OStr "x"; OStr "y"]) in
  check_consistency b = Ok () ∧
  check_consistency v = Ok () ∧
  __setitem__ b (IInt 0) v
  = (Raise ValueError,
     Batch BBoxesInternalType
       (NdArray [1; 4] [2; 2; 6; 6]%Q) (NdArray [1; 1] [OStr "a"])).
Proof. by vm_compute. Qed.

(** C4, as the code has it. [__setitem__] validates nothing: it assigns
    into the records and then into the metadata, in place. Neither
    assignment changes a shape, so a batch that satisfies the invariants
    satisfies them after every write, whether it raised or not; a write
    raises exactly when one of the two array assignments does, and when
    the second does the records are already written. *)
Theorem setitem_keeps_invariants b idx v :
  check_consistency b = Ok () →
  check_consistency (__setitem__ b idx v).2 = Ok () ∧
  shape (array (__setitem__ b idx v).2) = shape (array b) ∧
  shape (targets (__setitem__ b idx v).2) = shape (targets b) ∧
  match setitem (array b) idx (array v),
        setitem_object (targets b) idx (targets v) with
  | Raise e, _ => __setitem__ b idx v = (Raise e, b)
  | Ok a', Raise e =>
      __setitem__ b idx v = (Raise e, Batch (cls b) a' (targets b))
  | Ok a', Ok t' => __setitem__ b idx v = (Ok (), Batch (cls b) a' t')
  end.
Proof.
  intros Hb. unfold __setitem__.
  destruct (setitem (array b) idx (array v)) as [a'|e] eqn:Ea.
  - apply setitem_shape in Ea.
    destruct (setitem_object (targets b) idx (targets v)) as [t'|e] eqn:Et;
      simpl.
    + apply setitem_object_shape in Et.
      by rewrite (check_consistency_shapes b).
    + by rewrite (check_consistency_shapes b).
  - simpl. by destruct (setitem_object (targets b) idx (targets v)).
Qed.

(** Nor does a write change the number of elements an array holds. *)
Lemma setitem_keeps_wf b idx v :
  wf (array b) → wf (targets b) → wf (array v) → wf (targets v) →
  wf (array (__setitem__ b idx v).2) ∧ wf (targets (__setitem__ b idx v).2).
Proof.
  intros Hba Hbt Hva Hvt. unfold __setitem__.
  destruct (setitem (array b) idx (array v)) as [a'|e] eqn:Ea; [|done].
  apply setitem_wf in Ea; [|done..].
  destruct (setitem_object (targets b) idx (targets v)) as [t'|e] eqn:Et;
    [|done].
  split; [done|]. simpl. revert Et. unfold setitem_object.
  destruct (shape (targets b)) as [|n [|m rest]] eqn:Hs;
    try (by apply setitem_wf).
  destruct idx as [i|start stop step]; [|by apply setitem_wf].
  by destruct (normalize_index i n).
Qed.

Lemma setitem_keeps_invariants_witness :
  let b := Batch BBoxesInternalType
             (NdArray [2; 4] [1; 1; 5; 5; 2; 2; 6; 6]%Q)
             (NdArray [2; 1] [OStr "a"; OStr "b"]) in
  let v := Batch BBoxesInternalType
             (NdArray [1; 4] [0; 0; 9; 9]%Q) (NdArray [1; 1] [OStr "c"]) in
  check_consistency b = Ok () ∧
  check_consistency (__setitem__ b (IInt 1) v).2 = Ok ().
Proof.
  intros b v. split; [reflexivity|].
  apply (setitem_keeps_invariants b (IInt 1) v). reflexivity.
Defined.

End BatchOperations.

(** ** Additional targets *)

Section AddTargets.
Import Transform.

(** After two registrations only the second mapping is in the table:
    ["image2"], a key of the first mapping alone, is no alias any more
    and, the table of targets having no entry of that name, resolves to
    the pass-through. *)
Lemma add_targets_twice_drops_first :
  let m1 : gmap string string := {[ "image2" := "image" ]} in
  let m2 : gmap string string := {[ "mask2" := "mask" ]} in
  let self := add_targets (add_targets (__init__ 1 false (1 # 2)) m1) m2 in
  _additional_targets self ≠ m2 ∪ m1 ∧
  _additional_targets self !! "image2" = None ∧
  _get_target_function (defaults DualTransform) self "image2" = Ok Identity ∧
  _get_target_function (defaults DualTransform)
    (add_targets (__init__ 1 false (1 # 2)) m1) "image2" = Ok Apply.
Proof.
  cbn. split; [|by vm_compute].
  intros E. apply (f_equal (λ m : gmap string string, m !! "image2")) in E.
  vm_compute in E. discriminate.
Qed.

(** A dropped alias of a standard name goes back to the target function
    of that name: ["mask"], registered as an image and then left out,
    is a mask again. *)
Lemma add_targets_dropped_alias_reverts :
  let m1 : gmap string string := {[ "mask" := "image" ]} in
  let m2 : gmap string string := {[ "image2" := "image" ]} in
  let self := __init__ 1 false (1 # 2) in
  _get_target_function (defaults DualTransform) (add_targets self m1) "mask"
  = Ok Apply ∧
  _get_target_function (defaults DualTransform)
    (add_targets (add_targets self m1) m2) "mask" = Ok ApplyToMask.
Proof. by vm_compute. Qed.

(** C2, as the code has it. [add_targets] replaces the table: after
    [add_targets(m1)] and [add_targets(m2)] the table is [m2], and every
    key resolves as it does after [add_targets(m2)] alone: to what the
    table of targets has under the name [m2] gives the key, or under the
    key itself when [m2] does not have it, and to the pass-through when
    the table of targets has no such entry. What [m1] said plays no
    part. *)
Theorem add_targets_replaces C self (m1 m2 : gmap string string) key :
  _additional_targets (add_targets (add_targets self m1) m2) = m2 ∧
  _get_target_function C (add_targets (add_targets self m1) m2) key
  = _get_target_function C (add_targets self m2) key ∧
  _get_target_function C (add_targets (add_targets self m1) m2) key
  = (tbl ← targets C; Ok (default Identity (tbl !! default key (m2 !! key)))).
Proof.
  split; [reflexivity|]. split; [reflexivity|].
  unfold _get_target_function, add_targets. simpl.
  by destruct (m2 !! key).
Qed.

End AddTargets.

(** ** Masks *)

Section Masks.
Import Transform.

Lemma nearest_lookup (params : pdict) k :
  nearest params !! k
  = (λ v, if bool_decide (k = "interpolation") then INTER_NEAREST else v)
      <$> params !! k.
Proof.
  unfold nearest. rewrite map_lookup_imap. by destruct (params !! k).
Qed.

(** C7. Whatever [apply] a dual transform has, [apply_to_mask] is
    [apply] on the same image with one parameter mapping, in which
    ["interpolation"], when present, is [INTER_NEAREST] whatever it was,
    and every other key has the value it had. *)
Theorem apply_to_mask_nearest (params : pdict) :
  ∃ params' : pdict,
    (∀ C img, apply_to_mask C img params = apply C img params') ∧
    params' !! "interpolation"
      = (λ _, INTER_NEAREST) <$> params !! "interpolation" ∧
    ∀ k, k = "interpolation" ∨ params' !! k = params !! k.
Proof.
  exists (nearest params). split; [reflexivity|]. split.
  - rewrite nearest_lookup. by destruct (params !! "interpolation").
  - intros k. destruct (decide (k = "interpolation")) as [|Hk]; [by left|].
    right. rewrite nearest_lookup, bool_decide_eq_false_2 by done.
    by destruct (params !! k).
Qed.

End Masks.

(** ** Replay *)

Section Replay.
Import Transform.

(** C5. In replay mode, a transform not applied in the recorded pass
    returns the mapping it was given: the result is [kwargs], the random
    source is not consulted, no object is written into and no member or
    target function is called. *)
Theorem replay_not_applied_returns_input C self force_apply kw g :
  replay_mode self = true →
  applied_in_replay self = false →
  invoke C self [] force_apply kw g = (Ok kw, World g kw []).
Proof.
  intros Hr Ha. unfold invoke, __call__. by rewrite Hr, Ha.
Qed.

Lemma replay_not_applied_witness :
  let skipped := {|
    id := 3; p := 1; always_apply := true; _additional_targets := ∅;
    deterministic := false; save_key := "replay"; params := Some ∅;
    replay_mode := true; applied_in_replay := false |} in
  invoke Examples.Shift skipped [] true
    [("image", VArray Examples.image10); ("bboxes", VBatch Examples.one_box)]
    Examples.halves
  = (Ok [("image", VArray Examples.image10);
         ("bboxes", VBatch Examples.one_box)],
     World Examples.halves
       [("image", VArray Examples.image10);
        ("bboxes", VBatch Examples.one_box)] []).
Proof.
  intros skipped.
  apply (replay_not_applied_returns_input Examples.Shift skipped);
    reflexivity.
Defined.

End Replay.

(** ** Calls of a transform *)

Section Calls.
Import Transform.
Variable C : TransformClass.



(** *** Running a call step by step *)

Lemma bind_ok {A B} (m : M A) (f : A → M B) w a w' :
  m w = (Ok a, w') → (m ≫= f) w = f a w'.
Proof. intros H. unfold mbind, M_bind. by rewrite H. Qed.

Lemma bind_raise {A B} (m : M A) (f : A → M B) w e w' :
  m w = (Raise e, w') → (m ≫= f) w = (Raise e, w').
Proof. intros H. unfold mbind, M_bind. by rewrite H. Qed.






(** *** The record of calls only grows *)

Lemma grows_ret {A} (a : A) : grows (mret a : M A).
Proof. intros w. exists []. by rewrite app_nil_r. Qed.

Lemma grows_raise {A} e : grows (raise e : M A).
Proof. intros w. exists []. by rewrite app_nil_r. Qed.

Lemma grows_lift {A} (r : result A) : grows (lift r).
Proof. intros w. exists []. by rewrite app_nil_r. Qed.

Lemma grows_get_kwargs : grows get_kwargs.
Proof. intros w. exists []. by rewrite app_nil_r. Qed.

Lemma grows_mutate key v : grows (mutate key v).
Proof. intros w. exists []. by rewrite app_nil_r. Qed.

Lemma grows_log c : grows (log c).
Proof. intros w. by exists [c]. Qed.

Lemma grows_draw {A} c (f : rng → result A * rng) : grows (draw c f).
Proof. intros w. exists [c]. unfold draw. by destruct (f (random_state w)). Qed.

Lemma grows_bind {A B} (m : M A) (f : A → M B) :
  grows m → (∀ a, grows (f a)) → grows (m ≫= f).
Proof.
  intros Hm Hf w. unfold mbind, M_bind.
  destruct (Hm w) as [l Hl]. destruct (m w) as [[a|e] w']; simpl in Hl.
  - destruct (Hf a w') as [l' Hl']. exists (l ++ l').
    by rewrite Hl', Hl, app_assoc.
  - by exists l.
Qed.

Create HintDb grows.

#[local] Hint Resolve grows_ret grows_raise grows_lift grows_get_kwargs
  grows_mutate grows_log grows_draw : grows.

Ltac grows :=
  repeat first
    [ apply grows_bind; [|intros ?]
    | progress eauto with grows
    | match goal with
      | |- grows (match ?x with _ => _ end) => destruct x
      | |- grows (if ?x then _ else _) => destruct x
      | |- grows (let '(_, _) := ?x in _) => destruct x
      end ].

Lemma grows_call_target key h arg (P : pdict) :
  grows (call_target C key h arg P).
Proof.
  unfold call_target. apply grows_bind; [grows|]. intros _.
  destruct h; try (by grows); destruct arg; by grows.
Qed.

Lemma grows_transform_item self (P : pdict) key arg :
  grows (transform_item C self P key arg).
Proof.
  unfold transform_item.
  destruct arg; try (by grows);
    repeat (apply grows_bind; [by grows|intros ?]); apply grows_call_target.
Qed.

Lemma grows_dispatch self (P : pdict) items :
  grows (dispatch C self P items).
Proof.
  induction items as [|[key arg] items IH]; simpl; [by grows|].
  apply grows_bind; [apply grows_transform_item|]. intros r.
  apply grows_bind; [done|]. intros res. by grows.
Qed.

Lemma grows_apply_with_params self params :
  grows (apply_with_params C self params).
Proof.
  unfold apply_with_params. apply grows_bind; [by grows|]. intros kw.
  destruct params; [|by grows].
  apply grows_bind; [by grows|]. intros P. apply grows_dispatch.
Qed.

Lemma grows_record self (P : pdict) : grows (record self P).
Proof. unfold record. by grows. Qed.

Lemma grows_elem {A} (m : M A) c w :
  grows m → c ∈ calls w → c ∈ calls (m w).2.
Proof.
  intros Hm Hc. destruct (Hm w) as [l ->]. apply elem_of_app. by left.
Qed.

Lemma generate_fired w : fired (generate C w).2.
Proof.
  unfold generate, fired.
  set (rest := λ params : pdict, match targets_as_params C with
                                 | [] => mret params
                                 | _ => _
                                 end).
  assert (∀ params, grows (rest params)) as Hrest.
  { intros params. unfold rest. by grows. }
  unfold mbind at 1, M_bind at 1.
  assert (CGetParams ∈ calls (draw CGetParams (get_params C) w).2) as Hd.
  { unfold draw. destruct (get_params C (random_state w)). simpl.
    apply elem_of_app. right. by apply list_elem_of_singleton. }
  destruct (draw CGetParams (get_params C) w) as [[params|e] w1]; [|done].
  by apply grows_elem.
Qed.

Lemma fire_fired self w : fired (fire C self w).2.
Proof.
  unfold fire, fired. unfold mbind at 1, M_bind at 1.
  pose proof (generate_fired w) as Hg.
  destruct (generate C w) as [[params|e] w1]; [|done].
  apply grows_elem; [|done].
  apply grows_bind; [destruct (deterministic self); by grows || apply grows_record|].
  intros _. apply grows_apply_with_params.
Qed.

Lemma Qltb_draw_one (r q : Q) :
  (0 <= r < 1)%Q → (q == 1)%Q → Qltb r q = true.
Proof. intros [_ Hr] Hq. apply Qltb_lt. by rewrite Hq. Qed.

Lemma Qltb_draw_zero (r q : Q) :
  (0 <= r < 1)%Q → (q == 0)%Q → Qltb r q = false.
Proof. intros [Hr _] Hq. apply Qltb_ge. by rewrite Hq. Qed.

(** Outside replay mode a call draws one number and fires or returns
    its input. *)
Lemma invoke_normal self force_apply kw (g : rng) :
  replay_mode self = false →
  invoke C self [] force_apply kw g
  = if Qltb (g 0) (p self) || always_apply self || force_apply
    then fire C self (World (λ n, g (S n)) kw [CRandom])
    else (Ok kw, World (λ n, g (S n)) kw [CRandom]).
Proof.
  intros Hrm. unfold invoke, __call__. rewrite Hrm.
  unfold mbind, M_bind, random_random. simpl.
  by destruct (Qltb (g 0) (p self) || always_apply self || force_apply).
Qed.

Lemma generate_plain (P0 : pdict) g1 w :
  targets_as_params C = [] →
  get_params C (random_state w) = (Ok P0, g1) →
  generate C w = (Ok P0, World g1 (objects w) (calls w ++ [CGetParams])).
Proof.
  intros Htap Hgen. unfold generate, mbind, M_bind, draw.
  by rewrite Hgen, Htap.
Qed.


(** C8. Outside replay mode, whatever number in [0, 1) the random
    source returns: a transform with [p = 1.0] fires, that is, it runs
    the body of the test and asks for parameters; a transform with
    [p = 0.0] and [always_apply] false, called without [force_apply],
    returns the mapping it was given and calls nothing else. *)
Theorem probability_gate sure never force_apply kw (g : rng) :
  replay_mode sure = false →
  replay_mode never = false →
  (p sure == 1)%Q →
  (p never == 0)%Q →
  always_apply never = false →
  (0 <= g 0%nat < 1)%Q →
  (invoke C sure [] force_apply kw g
   = fire C sure (World (λ n, g (S n)) kw [CRandom]) ∧
   fired (invoke C sure [] force_apply kw g).2) ∧
  (invoke C never [] false kw g
   = (Ok kw, World (λ n, g (S n)) kw [CRandom]) ∧
   ¬ fired (invoke C never [] false kw g).2).
Proof.
  intros Hs Hn Hp1 Hp0 Ha Hg. split.
  - rewrite invoke_normal, (Qltb_draw_one _ _ Hg Hp1) by done. simpl.
    split; [done|]. apply fire_fired.
  - rewrite invoke_normal, (Qltb_draw_zero _ _ Hg Hp0), Ha by done. simpl.
    split; [done|]. unfold fired. simpl.
    intros H. apply list_elem_of_singleton in H. discriminate.
Qed.

(** *** What a call writes into the caller's objects *)

Lemma getitem_mutate_ne K key v (kw : kwargs) :
  key ≠ K →
  getitem K (map (λ kv, if bool_decide (kv.1 = key) then (key, v) else kv) kw)
  = getitem K kw.
Proof.
  intros Hne. induction kw as [|[k x] kw IH]; [done|]. simpl.
  case_bool_decide as Hk; simpl in *.
  - subst k. by rewrite !bool_decide_eq_false_2 by done.
  - by rewrite IH.
Qed.

Lemma getitem_mutate_eq K v x (kw : kwargs) :
  getitem K kw = Ok x →
  getitem K (map (λ kv, if bool_decide (kv.1 = K) then (K, v) else kv) kw)
  = Ok v.
Proof.
  induction kw as [|[k y] kw IH]; [done|]. simpl.
  case_bool_decide as Hk; simpl.
  - by rewrite bool_decide_eq_true_2.
  - rewrite bool_decide_eq_false_2 by done. apply IH.
Qed.

Lemma getitem_raises key (kw : kwargs) e :
  getitem key kw = Raise e → e = KeyError.
Proof.
  induction kw as [|[k y] kw IH]; simpl; [congruence|].
  by case_bool_decide.
Qed.

(** An item that is not a batch leaves every object as it is; a batch
    passed as [key] may be written into, and no other object is. *)
Lemma transform_item_keeps K self (P : pdict) key arg w :
  (key = K → ∃ s, arg = VStore s) →
  getitem K (objects (transform_item C self P key arg w).2)
  = getitem K (objects w).
Proof.
  intros HK. unfold transform_item.
  destruct arg as [| | | | |b|]; try done;
    unfold mbind, M_bind, lift, get_kwargs;
    destruct (_get_target_function C self key) as [h|]; try done;
    destruct (collect _ (objects w)) as [deps|]; try done;
    unfold call_target, mbind, M_bind, log, lift, raise, mutate; simpl;
    destruct h; simpl; try done;
    repeat match goal with
           | |- context [apply C ?a ?b] => destruct (apply C a b)
           | |- context [apply_to_mask C ?a ?b] => destruct (apply_to_mask C a b)
           | |- context [apply_to_masks C ?a ?b] => destruct (apply_to_masks C a b)
           | |- context [apply_to_bboxes C ?a ?b] =>
               destruct (apply_to_bboxes C a b) as [[?|?] ?]
           | |- context [apply_to_keypoints C ?a ?b] =>
               destruct (apply_to_keypoints C a b) as [[?|?] ?]
           end; simpl; try done;
    apply getitem_mutate_ne; intros ->; by destruct HK.
Qed.

Lemma dispatch_keeps K self (P : pdict) items w :
  Forall (λ kv, kv.1 = K → ∃ s, kv.2 = VStore s) items →
  getitem K (objects (dispatch C self P items w).2) = getitem K (objects w).
Proof.
  intros H. revert w. induction H as [|[key arg] items Hkv _ IH]; intros w.
  - done.
  - simpl. unfold mbind at 1, M_bind at 1.
    pose proof (transform_item_keeps K self P key arg w Hkv) as Hi.
    destruct (transform_item C self P key arg w) as [[r|e] w1]; [|done].
    unfold mbind, M_bind. specialize (IH w1).
    destruct (dispatch C self P items w1) as [[res|e] w2]; simpl in *;
      congruence.
Qed.

Lemma apply_with_params_keeps K self params w :
  Forall (λ kv, kv.1 = K → ∃ s, kv.2 = VStore s) (objects w) →
  getitem K (objects (apply_with_params C self params w).2)
  = getitem K (objects w).
Proof.
  intros H. unfold apply_with_params, mbind at 1, M_bind at 1, get_kwargs.
  destruct params as [P0|]; [|done].
  unfold mbind, M_bind, lift.
  destruct (update_params C P0 (objects w)) as [P|]; [|done].
  by apply dispatch_keeps.
Qed.

Lemma generate_objects w : objects (generate C w).2 = objects w.
Proof.
  unfold generate, mbind, M_bind, draw, get_kwargs, lift, raise.
  destruct (get_params C (random_state w)) as [[P|e] g1]; [|done].
  destruct (targets_as_params C) as [|key keys]; [done|].
  cbn [objects].
  destruct (forallb _ (key :: keys)); [|done].
  destruct (collect (key :: keys) _); [|done].
  by destruct (get_params_dependent_on_targets C _ _) as [[?|?] ?].
Qed.

(** Recording writes into a dictionary and fails on anything else. *)
Lemma record_spec self (P : pdict) w :
  match getitem (save_key self) (objects w) with
  | Ok (VStore s) =>
      record self P w = mutate (save_key self) (VStore (<[id self := P]> s)) w
  | Ok _ => ∃ e, record self P w = (Raise e, w)
  | Raise e => record self P w = (Raise e, w)
  end.
Proof.
  unfold record, mbind, M_bind, get_kwargs, lift, raise.
  destruct (getitem (save_key self) (objects w)) as [[| | |a|l| |]|];
    eauto.
  - destruct (shape a) as [|n sh]; [by eauto|].
    destruct (normalize_index (id self) n); eauto.
  - destruct (normalize_index (id self) (length l)); eauto.
Qed.

(** C10. A transform made deterministic that fires and has generated the
    parameters [P] writes them under [id(self)] into the dictionary
    passed as [save_key]; when no object is passed under that name the
    call raises [KeyError] there, with nothing written and no target
    function called; when the object is not a dictionary the call fails
    as well. *)
Theorem deterministic_call_records self force_apply kw (g : rng) (P : pdict) w1 :
  replay_mode self = false →
  deterministic self = true →
  Qltb (g 0%nat) (p self) || always_apply self || force_apply = true →
  generate C (World (λ n, g (S n)) kw [CRandom]) = (Ok P, w1) →
  match getitem (save_key self) kw with
  | Ok (VStore s) =>
      getitem (save_key self)
              (objects (invoke C self [] force_apply kw g).2)
      = Ok (VStore (<[id self := P]> s))
  | Ok _ => is_ok (invoke C self [] force_apply kw g).1 = false
  | Raise _ =>
      invoke C self [] force_apply kw g = (Raise KeyError, w1) ∧
      objects w1 = kw
  end.
Proof.
  intros Hrm Hdet Hfire Hgen.
  rewrite invoke_normal, Hfire by done.
  pose proof (generate_objects (World (λ n, g (S n)) kw [CRandom])) as Hobj.
  rewrite Hgen in Hobj. simpl in Hobj.
  unfold fire. rewrite (bind_ok _ _ _ _ _ Hgen), Hdet.
  pose proof (record_spec self P w1) as Hrec. rewrite Hobj in Hrec.
  destruct (getitem (save_key self) kw) as [store|e] eqn:Hget.
  - destruct store as [| | | | | |s].
    7:{ rewrite (bind_ok _ _ _ _ _ Hrec).
        rewrite apply_with_params_keeps; simpl.
        - rewrite Hobj. by apply (getitem_mutate_eq _ _ (VStore s)).
        - apply Forall_forall. intros [k x] Hin Hk.
          apply list_elem_of_fmap in Hin as ([k' y] & Heq & _).
          simpl in *. case_bool_decide; simplify_eq; eauto. }
    all: destruct Hrec as [e Hrec]; by rewrite (bind_raise _ _ _ _ _ Hrec).
  - rewrite (bind_raise _ _ _ _ _ Hrec).
    by rewrite (getitem_raises _ _ _ Hget).
Qed.



End Calls.

Section CallsExamples.
Import Transform.


Lemma probability_gate_witness :
  fired (invoke Examples.Shift (__init__ 1 false 1) [] false
           [("image", VArray Examples.image10)] Examples.halves).2 ∧
  invoke Examples.Shift (__init__ 2 false 0) [] false
    [("image", VArray Examples.image10)] Examples.halves
  = (Ok [("image", VArray Examples.image10)],
     World (λ n, Examples.halves (S n))
       [("image", VArray Examples.image10)] [CRandom]).
Proof.
  pose proof (probability_gate Examples.Shift
                (__init__ 1 false 1) (__init__ 2 false 0) false
                [("image", VArray Examples.image10)] Examples.halves) as H.
  destruct H as [[_ H1] [H0 _]]; try reflexivity.
  - split; by vm_compute.
  - by split.
Defined.

Lemma deterministic_call_records_witness :
  getitem "replay"
    (objects (invoke Examples.Shift Examples.recording [] false
                [("image", VArray Examples.image10); ("replay", VStore ∅)]
                Examples.halves).2)
  = Ok (VStore {[ 1%Z := {[ "dx" := VFloat (1 # 2) ]} ]}) ∧
  (invoke Examples.Shift Examples.recording [] false
     [("image", VArray Examples.image10)] Examples.halves).1
  = Raise KeyError.
Proof.
  split.
  - apply (deterministic_call_records Examples.Shift Examples.recording false
             [("image", VArray Examples.image10); ("replay", VStore ∅)]
             Examples.halves {[ "dx" := VFloat (1 # 2) ]}
             (World (λ n, Examples.halves (S (S n)))
                [("image", VArray Examples.image10); ("replay", VStore ∅)]
                [CRandom; CGetParams]));
      reflexivity.
  - set (w1 := World (λ n, Examples.halves (S (S n)))
                  [("image", VArray Examples.image10)] [CRandom; CGetParams]).
    assert (invoke Examples.Shift Examples.recording [] false
              [("image", VArray Examples.image10)] Examples.halves
            = (Raise KeyError, w1) ∧
            objects w1 = [("image", VArray Examples.image10)]) as [-> _];
      [|reflexivity].
    apply (deterministic_call_records Examples.Shift Examples.recording false
             [("image", VArray Examples.image10)]
             Examples.halves {[ "dx" := VFloat (1 # 2) ]} w1);
      reflexivity.
Defined.

End CallsExamples.

(** * Further properties *)

(** ** to_tuple: errors, bias, order *)

Section RangeMore.
Import SpecFloat Range.

Lemma add_raises x y e : add x y = Raise e → e = OverflowError.
Proof.
  destruct x as [a|a], y as [b|b]; simpl; try done.
  - unfold float_of_int.
    by destruct (binary_normalize prec emax a 0 false); simpl; intros [= <-].
  - unfold float_of_int.
    by destruct (binary_normalize prec emax b 0 false); simpl; intros [= <-].
Qed.

Lemma bias_add_raises b x e :
  bias_add b x = Raise e → e = TypeError ∨ e = OverflowError.
Proof.
  destruct x as [|v| | |]; simpl; try (intros [= <-]; by left).
  destruct (add b v) as [r|e'] eqn:E; simpl; [done|].
  intros [= <-]. right. by apply (add_raises b v).
Qed.

Lemma to_tuple_seq p l low bias :
  items p = Some l →
  to_tuple p low bias
  = match low, bias with
    | Some _, Some _ => Raise ValueError
    | _, _ =>
      match l with
      | [a; b] =>
          match bias with
          | Some c => x ← bias_add c a; y ← bias_add c b; Ok (Some (x, y))
          | None => Ok (Some (a, b))
          end
      | _ => Raise ValueError
      end
    end.
Proof.
  destruct p as [|v|s|l'|]; try done; simpl; intros [= <-];
    destruct low, bias; simpl; try done.
  all: first [ by destruct (chars s) as [|x [|y [|z t]]]
             | by destruct l' as [|x [|y [|z t]]] ].
Qed.

Lemma bias_adds_raise b x y e :
  (x' ← bias_add b x; y' ← bias_add b y; Ok (Some (x', y'))) = Raise e →
  e = TypeError ∨ e = OverflowError.
Proof.
  destruct (bias_add b x) as [x'|e1] eqn:E1; simpl.
  - destruct (bias_add b y) as [y'|e2] eqn:E2; simpl; [done|].
    intros [= <-]. by apply (bias_add_raises b y).
  - intros [= <-]. by apply (bias_add_raises b x).
Qed.

Ltac to_tuple_leaf :=
  split;
  [ split;
    [ first
        [ done
        | intros _; left; by eauto
        | intros _; right; left; eexists; (split; [done|simpl; lia])
        | intros _; right; by right
        | intros H; by destruct (bias_adds_raise _ _ _ _ H) ]
    | intros [[[? ?] [? ?]]|[(? & ? & ?)| ?]]; simplify_eq/=; try done; lia ]
  | intros e;
    first
      [ done
      | by intros [= <-]; left
      | intros H; right; split; [by eauto|];
        by apply (bias_adds_raise _ _ _ _ H) ] ].

(** X1. [to_tuple] raises [ValueError] exactly when an anchor and a bias
    are both given, or the parameter is a sequence (a string included)
    of a length other than two, or is neither [None], a number nor a
    sequence. Without a bias it raises nothing else; with a bias the
    addition may raise [TypeError] or [OverflowError], and nothing else
    is raised. *)
Theorem to_tuple_raises p low bias :
  (to_tuple p low bias = Raise ValueError ↔
     (is_Some low ∧ is_Some bias) ∨
     (∃ l, items p = Some l ∧ length l ≠ 2) ∨
     p = OOther) ∧
  (∀ e, to_tuple p low bias = Raise e →
        e = ValueError ∨
        (is_Some bias ∧ (e = TypeError ∨ e = OverflowError))).
Proof.
  destruct (items p) as [l|] eqn:Hi.
  - rewrite (to_tuple_seq p l low bias Hi).
    destruct low as [a|], bias as [b|], l as [|x [|y [|z t]]];
      to_tuple_leaf.
  - destruct p as [|v|s|l|]; try done;
      destruct low as [a|], bias as [b|]; cbn -[bias_add lt]; to_tuple_leaf.
Qed.

(** X2. With a bias and no anchor [to_tuple] returns [bias + x] for the
    two ends [x] of the pair it returns without the bias, the first end
    first; [None] stays [None], and a [ValueError] of the call without
    the bias is raised with it as well. *)
Theorem to_tuple_bias_shifts p b :
  to_tuple p None (Some b)
  = r ← to_tuple p None None;
    match r with
    | None => Ok None
    | Some (x, y) =>
        x' ← bias_add b x; y' ← bias_add b y; Ok (Some (x', y'))
    end.
Proof.
  destruct p as [|v|s|l|]; simpl; try done.
  - by destruct (chars s) as [|x [|y [|z t]]].
  - by destruct l as [|x [|y [|z t]]].
Qed.

(** The sums are those of binary64: a small scalar is absorbed by the
    bias, [to_tuple(2**-60, bias=1.0)] is [(1.0, 1.0)]. *)
Lemma to_tuple_bias_rounds :
  to_tuple (ONum (Float (S754_finite false 4503599627370496 (-112)))) None
    (Some (Float Examples.one))
  = Ok (Some (ONum (Float Examples.one), ONum (Float Examples.one))).
Proof. by vm_compute. Qed.

Lemma scaled_zero s m e : scaled 0 s m e = if s then Gt else Lt.
Proof.
  unfold scaled, cond_Zopp. rewrite Z.mul_0_l.
  assert (0 ≤ e → 0 < 2 ^ e)%Z as Hpow
    by (intros; apply Z.pow_pos_nonneg; lia).
  destruct s, (Z.leb_spec 0 e).
  - rewrite Z.compare_gt_iff. specialize (Hpow ltac:(done)). nia.
  - rewrite Z.compare_gt_iff. lia.
  - rewrite Z.compare_lt_iff. specialize (Hpow ltac:(done)). nia.
  - rewrite Z.compare_lt_iff. lia.
Qed.

Lemma le_neg v : le (neg v) v = le (Int 0) v.
Proof.
  unfold le. destruct v as [z|[s|s| |s m e]].
  - simpl. by destruct z.
  - simpl. by destruct s.
  - simpl. by destruct s.
  - done.
  - cbn [neg compare int_float_compare]. rewrite scaled_zero.
    by destruct s.
Qed.

(** X3. With no anchor and no bias the pair a scalar gives is ascending
    exactly when the scalar is not below zero: [to_tuple(-3)] is
    [(3, -3)]. *)
Theorem to_tuple_scalar_order v lo hi :
  to_tuple (ONum v) None None = Ok (Some (ONum lo, ONum hi)) →
  le lo hi = true ↔ le (Int 0) v = true.
Proof. simpl. intros [= <- <-]. by rewrite le_neg. Qed.

Lemma to_tuple_scalar_order_witness :
  to_tuple (ONum (Int (-3))) None None
  = Ok (Some (ONum (Int 3), ONum (Int (-3)))) ∧
  le (Int 3) (Int (-3)) = false.
Proof.
  split; [reflexivity|].
  apply not_true_is_false. intros H.
  by apply (to_tuple_scalar_order (Int (-3)) (Int 3) (Int (-3)) eq_refl) in H.
Defined.

End RangeMore.

(** ** Batches: validation, construction, length *)

Section BatchMore.
Import Batch.

(** X4. An array passes [assert_array_format] exactly when it is empty along
    its first axis, or two-dimensional with the width of its class: 4
    for boxes, 2 to 4 for keypoints. *)
Theorem assert_array_format_accepts k a :
  assert_array_format k (Nd a) = Ok () ↔
  ∃ n rest, shape a = n :: rest ∧
    (n = 0 ∨ ∃ w, rest = [w] ∧
       match k with
       | BBoxesInternalType => w = 4
       | KeypointsInternalType => 2 ≤ w ≤ 4
       end).
Proof.
  destruct k; simpl;
    unfold bboxes_assert_array_format, keypoints_assert_array_format, len.
  all: split.
  all: try (destruct (shape a) as [|n rest] eqn:Hs; [done|];
            intros H; exists n, rest; split; [done|];
            destruct n as [|n]; [by left|right];
            destruct rest as [|w [|x rest]]; simpl in H; try done;
            exists w; (split; [done|]); by case_bool_decide).
  all: intros (n & rest & -> & [->|(w & -> & Hw)]); [done|];
    destruct n; simpl; try done; by rewrite bool_decide_eq_true_2.
Qed.

(** Whatever is accepted as an array of boxes is accepted as an array of
    keypoints. *)
Theorem bboxes_format_is_keypoints_format a :
  assert_array_format BBoxesInternalType (Nd a) = Ok () →
  assert_array_format KeypointsInternalType (Nd a) = Ok ().
Proof.
  rewrite !assert_array_format_accepts.
  intros (n & rest & Hs & Hn). exists n, rest. split; [done|].
  destruct Hn as [?|(w & ? & ?)]; [by left|right].
  exists w. split; [done|lia].
Qed.

Lemma bboxes_format_is_keypoints_format_witness :
  assert_array_format KeypointsInternalType
    (Nd (NdArray [1; 4] [1; 1; 5; 5]%Q)) = Ok ().
Proof. apply bboxes_format_is_keypoints_format. reflexivity. Defined.

(** X5. A batch that [__init__] returns has the class asked for, holds the
    array it was given and satisfies [check_consistency]. *)
Theorem init_establishes_invariants k arr tg b :
  __init__ k arr tg = Ok b →
  cls b = k ∧ arr = Nd (array b) ∧ check_consistency b = Ok ().
Proof.
  unfold __init__, __setattr__. destruct arr as [a|rows].
  2:{ by destruct k. }
  destruct (assert_array_format k (Nd a)) as [[]|] eqn:Hf; [simpl|done].
  unfold __post_init__, __setattr__, astype_float. simpl. rewrite Hf. simpl.
  destruct (len a) as [n|]; [simpl|done].
  set (t0 := default (empty [0; 0]) tg).
  assert (∀ t, (check_consistency (Batch k a t) ≫= λ _, Ok (Batch k a t))
               = Ok b →
               cls b = k ∧ Nd a = Nd (array b) ∧ check_consistency b = Ok ())
    as Hend.
  { intros t.
    destruct (check_consistency (Batch k a t)) as [[]|] eqn:Hc; [|done].
    by intros [= <-]. }
  case_bool_decide; [|by apply Hend].
  destruct (shape t0) as [|[|m] sh]; [done|by apply Hend..].
Qed.

Lemma init_establishes_invariants_witness :
  check_consistency
    (Batch KeypointsInternalType (NdArray [2; 3] [1; 2; 0; 3; 4; 0]%Q)
       (empty [2; 0])) = Ok ().
Proof.
  apply (init_establishes_invariants KeypointsInternalType
           (Nd (NdArray [2; 3] [1; 2; 0; 3; 4; 0]%Q)) None).
  reflexivity.
Defined.

(** A non-empty two-dimensional array of the wrong width is refused
    with [ValueError], whatever the metadata. *)
Theorem init_wrong_width k n w d tg :
  n ≠ 0 →
  match k with
  | BBoxesInternalType => w ≠ 4
  | KeypointsInternalType => ¬ (2 ≤ w ≤ 4)
  end →
  __init__ k (Nd (NdArray [n; w] d)) tg = Raise ValueError.
Proof.
  intros Hn Hw. unfold __init__, __setattr__.
  destruct k; simpl; unfold bboxes_assert_array_format,
    keypoints_assert_array_format; simpl;
    rewrite (bool_decide_eq_true_2 _ Hn); simpl;
    by rewrite (bool_decide_eq_false_2 _ Hw).
Qed.

Lemma init_wrong_width_witness :
  __init__ BBoxesInternalType (Nd (NdArray [1; 3] [1; 1; 5]%Q)) None
  = Raise ValueError.
Proof. apply init_wrong_width; done. Defined.

Lemma init_ndarray_steps k a tg :
  assert_array_format k (Nd a) = Ok () →
  __init__ k (Nd a) tg
  = (n ← len a;
     let t0 := default (empty [0; 0]) tg in
     t ← (if bool_decide (n ≠ 0) then
            match shape t0 with
            | [] => Raise IndexError
            | 0 :: _ => Ok (empty [n; 0])
            | _ => Ok t0
            end
          else Ok t0);
     _ ← check_consistency (Batch k a t);
     Ok (Batch k a t)).
Proof.
  intros Hf. unfold __init__, __setattr__. rewrite Hf. simpl.
  unfold __post_init__, __setattr__, astype_float. simpl. rewrite Hf. simpl.
  destruct (len a) as [n|]; [simpl|done].
  case_bool_decide; [|done].
  by destruct (shape (default (empty [0; 0]) tg)) as [|[|m] sh].
Qed.

(** X6. Records and metadata of different counts are refused with
    [ValueError], except that metadata without rows is accepted for any
    number of records. *)
Theorem init_count_mismatch k a t n m :
  assert_array_format k (Nd a) = Ok () →
  len a = Ok n → len t = Ok m →
  n ≠ m → n = 0 ∨ m ≠ 0 →
  __init__ k (Nd a) (Some t) = Raise ValueError.
Proof.
  intros Hf Ha Ht Hnm Hz. rewrite init_ndarray_steps, Ha by done. simpl.
  assert ((if bool_decide (n ≠ 0) then
             match shape t with
             | [] => Raise IndexError
             | 0 :: _ => Ok (empty [n; 0])
             | _ => Ok t
             end
           else Ok t) = Ok t) as ->.
  { unfold len in Ht. case_bool_decide; [|done].
    destruct (shape t) as [|[|m'] sh]; try done.
    injection Ht as <-. by destruct Hz. }
  simpl. unfold check_consistency. simpl. rewrite Ha, Ht. simpl.
  by rewrite bool_decide_eq_true_2.
Qed.

Lemma init_count_mismatch_witness :
  __init__ BBoxesInternalType (Nd (NdArray [2; 4] [1; 1; 5; 5; 2; 2; 6; 6]%Q))
    (Some (NdArray [1; 1] [OStr "a"]))
  = Raise ValueError.
Proof.
  apply (init_count_mismatch _ _ _ 2 1); try reflexivity; [lia|by right].
Defined.

(** X7. Metadata without rows passed with records is replaced: the batch
    gets one empty row per record, and the columns the caller's
    metadata had are gone. *)
Theorem init_replaces_rowless_metadata k a t n :
  assert_array_format k (Nd a) = Ok () →
  len a = Ok n → n ≠ 0 → len t = Ok 0 →
  __init__ k (Nd a) (Some t) = Ok (Batch k a (empty [n; 0])).
Proof.
  intros Hf Ha Hn Ht. rewrite init_ndarray_steps, Ha by done. simpl.
  rewrite (bool_decide_eq_true_2 _ Hn).
  unfold len in Ht. destruct (shape t) as [|[|m'] sh]; try done. simpl.
  unfold check_consistency. simpl. rewrite Ha. simpl.
  rewrite bool_decide_eq_false_2 by (intros H; by apply H).
  by rewrite Hf.
Qed.

Lemma init_replaces_rowless_metadata_witness :
  __init__ BBoxesInternalType (Nd (NdArray [1; 4] [1; 1; 5; 5]%Q))
    (Some (NdArray [0; 5] []))
  = Ok (Batch BBoxesInternalType (NdArray [1; 4] [1; 1; 5; 5]%Q)
          (NdArray [1; 0] [])).
Proof.
  apply (init_replaces_rowless_metadata _ _ _ 1); try reflexivity. lia.
Defined.

(** X8. On a batch that satisfies the invariants [len] is the number of
    records; its assertion never fails. *)
Theorem len_of_consistent b :
  check_consistency b = Ok () →
  __len__ b = len (array b) ∧ is_ok (__len__ b) = true.
Proof.
  intros Hb. apply check_consistency_lens in Hb as (n & Ha & Ht).
  unfold __len__. rewrite Ha, Ht. simpl. by rewrite bool_decide_eq_true_2.
Qed.

Lemma len_of_consistent_witness :
  __len__ (Batch BBoxesInternalType (NdArray [1; 4] [1; 1; 5; 5]%Q)
             (NdArray [1; 0] [])) = Ok 1.
Proof.
  apply (len_of_consistent
           (Batch BBoxesInternalType (NdArray [1; 4] [1; 1; 5; 5]%Q)
              (NdArray [1; 0] []))).
  reflexivity.
Defined.

Lemma array_equal_refl {A} (eqb : A → A → bool) (a : ndarray A) :
  (∀ x, eqb x x = true) → array_equal eqb a a = true.
Proof.
  intros Hr. unfold array_equal. rewrite bool_decide_eq_true_2 by done.
  simpl. induction (data a) as [|x d IH]; [done|].
  simpl. by rewrite Hr, IH.
Qed.

Lemma array_equal_sym {A} (eqb : A → A → bool) (a b : ndarray A) :
  (∀ x y, eqb x y = eqb y x) → array_equal eqb a b = array_equal eqb b a.
Proof.
  intros Hs. unfold array_equal. f_equal.
  - apply bool_decide_ext. split; by intros ->.
  - generalize (data b). induction (data a) as [|x d IH]; intros [|y d'];
      simpl; try done.
    by rewrite Hs, IH.
Qed.

Lemma Qeq_bool_sym x y : Qeq_bool x y = Qeq_bool y x.
Proof.
  destruct (Qeq_bool x y) eqn:E.
  - symmetry. apply Qeq_bool_iff. symmetry. by apply Qeq_bool_iff.
  - symmetry. apply not_true_iff_false. intros H.
    apply Qeq_bool_iff in H. symmetry in H. apply Qeq_bool_iff in H.
    congruence.
Qed.

(** X9. A batch that satisfies the invariants is equal to itself. *)
Theorem eq_reflexive b :
  check_consistency b = Ok () → __eq__ b (VBatch b) = Ok true.
Proof.
  intros Hb. apply check_consistency_lens in Hb as (n & Ha & Ht).
  unfold __eq__. rewrite Ha, Ht. simpl.
  rewrite !bool_decide_eq_true_2 by done. simpl.
  rewrite !array_equal_refl; [by destruct (bool_decide (n = 0))| |].
  - intros x. by apply bool_decide_eq_true_2.
  - intros x. by apply Qeq_bool_iff.
Qed.

Lemma eq_reflexive_witness :
  __eq__ (Batch BBoxesInternalType (NdArray [1; 4] [1; 1; 5; 5]%Q)
            (NdArray [1; 1] [OStr "a"]))
    (VBatch (Batch BBoxesInternalType (NdArray [1; 4] [1; 1; 5; 5]%Q)
               (NdArray [1; 1] [OStr "a"])))
  = Ok true.
Proof. apply eq_reflexive. reflexivity. Defined.

(** X10. On batches that satisfy the invariants equality does not depend on
    the side a batch stands on: the two comparisons give the same
    answer or raise the same [TypeError]. *)
Theorem eq_symmetric b1 b2 :
  check_consistency b1 = Ok () → check_consistency b2 = Ok () →
  __eq__ b1 (VBatch b2) = __eq__ b2 (VBatch b1).
Proof.
  intros H1 H2.
  apply check_consistency_lens in H1 as (n1 & A1 & T1).
  apply check_consistency_lens in H2 as (n2 & A2 & T2).
  unfold __eq__. rewrite A1, A2, T1, T2. simpl.
  rewrite (array_equal_sym Qeq_bool (array b1)) by apply Qeq_bool_sym.
  rewrite (array_equal_sym _ (targets b1))
    by (intros x y; apply bool_decide_ext; split; by intros ->).
  repeat case_bool_decide; simpl; congruence.
Qed.

Lemma eq_symmetric_witness :
  __eq__ (Batch BBoxesInternalType (NdArray [1; 4] [1; 1; 5; 5]%Q)
            (NdArray [1; 0] []))
    (VBatch (Batch BBoxesInternalType (NdArray [0] []) (NdArray [0; 0] [])))
  = __eq__ (Batch BBoxesInternalType (NdArray [0] []) (NdArray [0; 0] []))
      (VBatch (Batch BBoxesInternalType (NdArray [1; 4] [1; 1; 5; 5]%Q)
                 (NdArray [1; 0] []))).
Proof. apply eq_symmetric; reflexivity. Defined.

End BatchMore.

(** ** Batches: reading and writing rows *)

Section BatchRows.
Import Batch.

Lemma row_lookup {A} n w (rows : list (list A)) i r :
  Forall (λ r, length r = w) rows → rows !! i = Some r →
  row (NdArray [n; w] (concat rows)) i = NdArray [w] r.
Proof.
  intros Hrows Hi.
  rewrite <- (take_drop_middle rows i r Hi).
  pose proof (lookup_lt_Some _ _ _ Hi) as Hlt.
  rewrite <- (length_take_le rows i) at 3 by lia.
  apply row_concat.
  - by apply Forall_take.
  - by apply (Forall_lookup_1 _ _ _ _ Hrows Hi).
Qed.

Lemma assign_into_unit_row {A} w (r : list A) :
  length r = w → assign_into [w] (NdArray [1; w] r) = Ok r.
Proof.
  intros Hr. unfold assign_into.
  change (align [w] (shape (NdArray [1; w] r))) with (Some [w]).
  cbn [mbind option_bind data].
  by rewrite broadcast_to_same by (simpl; lia).
Qed.

Lemma setitem_unit_row {A} n w (rows : list (list A)) i r' :
  Forall (λ r, length r = w) rows → i < length rows → length rows = n →
  length r' = w →
  setitem (NdArray [n; w] (concat rows)) (IInt (Z.of_nat i))
          (NdArray [1; w] r')
  = Ok (NdArray [n; w] (concat (<[i := r']> rows))).
Proof.
  intros Hrows Hi Hn Hr'.
  destruct (lookup_lt_is_Some_2 rows i Hi) as [r Hr].
  unfold setitem, normalize_index. simpl.
  rewrite bool_decide_eq_true_2 by lia. simpl.
  rewrite assign_into_unit_row by done. simpl.
  rewrite Nat2Z.id, Nat.mul_1_r. do 2 f_equal.
  rewrite insert_take_drop by done.
  rewrite <- (take_drop_middle rows i r Hr) at 1.
  rewrite <- (length_take_le rows i) at 1 by lia.
  apply write_row_concat; [by apply Forall_take|].
  by apply (Forall_lookup_1 _ _ _ _ Hrows Hr).
Qed.

Lemma getitem_row {A} n w (rows : list (list A)) i j r :
  Forall (λ r, length r = w) rows →
  normalize_index i n = Ok j → rows !! j = Some r →
  getitem (NdArray [n; w] (concat rows)) (IInt i) = Ok (NdArray [w] r).
Proof.
  intros Hrows Hi Hr. unfold getitem. cbn [shape]. rewrite Hi.
  cbn [mbind result_bind]. by rewrite (row_lookup _ _ _ _ _ Hrows Hr).
Qed.

Lemma normalize_index_idem i n j :
  normalize_index i n = Ok j → normalize_index (Z.of_nat j) n = Ok j.
Proof.
  intros H. pose proof (normalize_index_lt _ _ _ H).
  unfold normalize_index. rewrite bool_decide_eq_true_2 by lia.
  by rewrite Nat2Z.id.
Qed.

Lemma setitem_normalized {A} n rest (d : list A) v i j :
  normalize_index i n = Ok j →
  setitem (NdArray (n :: rest) d) (IInt i) v
  = setitem (NdArray (n :: rest) d) (IInt (Z.of_nat j)) v.
Proof.
  intros Hi. unfold setitem. cbn [shape].
  by rewrite Hi, (normalize_index_idem _ _ _ Hi).
Qed.

Lemma tabular_format b rows trows w m :
  tabular b rows trows w m → rows ≠ [] →
  check_consistency b = Ok () →
  ∀ d, assert_array_format (cls b) (Nd (NdArray [1; w] d)) = Ok ().
Proof.
  intros (Ha & Ht & _) Hne Hb d.
  unfold check_consistency in Hb. rewrite Ha, Ht in Hb. simpl in Hb.
  rewrite bool_decide_eq_false_2 in Hb by (intros H; by apply H).
  apply assert_array_format_accepts in Hb
    as (n & rest & [= <- <-] & [Hn|(w' & [= <-] & Hw)]).
  { by destruct rows. }
  apply assert_array_format_accepts. exists 1, [w]. split; [done|].
  right. by exists w.
Qed.

(** X11. Reading a record by an integer in range gives a batch of one record:
    that row, with its row of metadata. *)
Theorem getitem_int_is_one_row b rows trows w m i j r t :
  tabular b rows trows w m →
  check_consistency b = Ok () →
  normalize_index i (length rows) = Ok j →
  rows !! j = Some r → trows !! j = Some t →
  __getitem__ b (IInt i)
  = Ok (Batch (cls b) (NdArray [1; w] r) (NdArray [1; m] t)) ∧
  __len__ (Batch (cls b) (NdArray [1; w] r) (NdArray [1; m] t)) = Ok 1.
Proof.
  intros Htab Hb Hi Hr Ht. split; [|done].
  pose proof Htab as (Ha & Htg & Hlen & Hrows & Htrows).
  assert (rows ≠ []) as Hne by (intros ->; done).
  unfold __getitem__. rewrite Ha, Htg.
  rewrite (getitem_row _ _ _ _ _ _ Hrows Hi Hr).
  rewrite <- Hlen in Hi. rewrite <- Hlen.
  rewrite (getitem_row _ _ _ _ _ _ Htrows Hi Ht).
  unfold newaxis, astype_float. simpl.
  rewrite init_ndarray_steps by (by eapply tabular_format). simpl.
  unfold check_consistency. simpl.
  by rewrite (tabular_format _ _ _ _ _ Htab Hne Hb).
Qed.

Lemma getitem_int_is_one_row_witness :
  __getitem__
    (Batch BBoxesInternalType (NdArray [2; 4] [1; 1; 5; 5; 2; 2; 6; 6]%Q)
       (NdArray [2; 1] [OStr "a"; OStr "b"]))
    (IInt (-1))
  = Ok (Batch BBoxesInternalType (NdArray [1; 4] [2; 2; 6; 6]%Q)
          (NdArray [1; 1] [OStr "b"])).
Proof.
  apply (getitem_int_is_one_row
           (Batch BBoxesInternalType
              (NdArray [2; 4] [1; 1; 5; 5; 2; 2; 6; 6]%Q)
              (NdArray [2; 1] [OStr "a"; OStr "b"]))
           [[1; 1; 5; 5]; [2; 2; 6; 6]]%Q [[OStr "a"]; [OStr "b"]]
           4 1 (-1) 1); try reflexivity.
  repeat split; repeat constructor.
Defined.

(** An integer outside [-n, n) raises [IndexError]; on an empty batch
    every integer does. *)
Theorem getitem_out_of_range b n i :
  len (array b) = Ok n →
  ¬ (- Z.of_nat n ≤ i < Z.of_nat n)%Z →
  __getitem__ b (IInt i) = Raise IndexError.
Proof.
  intros Hn Hi. unfold __getitem__, getitem, len in *.
  destruct (shape (array b)) as [|n' rest]; [done|].
  injection Hn as ->. unfold normalize_index.
  by rewrite !bool_decide_eq_false_2 by lia.
Qed.

Lemma getitem_out_of_range_witness :
  __getitem__ (Batch BBoxesInternalType (NdArray [0; 4] []) (NdArray [0; 0] []))
    (IInt 0)
  = Raise IndexError.
Proof. apply (getitem_out_of_range _ 0); [reflexivity|lia]. Defined.

(** A negative index counts from the end: [b[i - n]] is [b[i]]. *)
Theorem getitem_negative_index b n i :
  len (array b) = Ok n → len (targets b) = Ok n →
  (0 ≤ i < Z.of_nat n)%Z →
  __getitem__ b (IInt (i - Z.of_nat n)) = __getitem__ b (IInt i).
Proof.
  intros Ha Ht Hi. unfold __getitem__, getitem, len in *.
  destruct (shape (array b)) as [|n' rest]; [done|].
  destruct (shape (targets b)) as [|n'' rest']; [done|].
  injection Ha as ->. injection Ht as ->.
  assert (normalize_index (i - Z.of_nat n) n = normalize_index i n) as ->; [|done].
  unfold normalize_index.
  rewrite (bool_decide_eq_false_2 (0 ≤ i - _ < _)%Z) by lia.
  rewrite (bool_decide_eq_true_2 (_ ≤ i - _ < 0)%Z) by lia.
  rewrite (bool_decide_eq_true_2 (0 ≤ i < _)%Z) by lia.
  f_equal. lia.
Qed.

Lemma getitem_negative_index_witness :
  __getitem__ Examples.one_box (IInt (0 - 1)) = __getitem__ Examples.one_box (IInt 0).
Proof. apply (getitem_negative_index _ 1); [reflexivity..|lia]. Defined.

(** X12. Writing back the record just read changes nothing. *)
Theorem setitem_of_getitem b rows trows w m i j v :
  tabular b rows trows w m →
  check_consistency b = Ok () →
  normalize_index i (length rows) = Ok j →
  __getitem__ b (IInt i) = Ok v →
  __setitem__ b (IInt i) v = (Ok (), b).
Proof.
  intros Htab Hb Hi Hv.
  pose proof Htab as (Ha & Htg & Hlen & Hrows & Htrows).
  pose proof (normalize_index_lt _ _ _ Hi) as Hj.
  destruct (lookup_lt_is_Some_2 rows j Hj) as [r Hr].
  destruct (lookup_lt_is_Some_2 trows j ltac:(lia)) as [t Ht].
  destruct (getitem_int_is_one_row _ _ _ _ _ _ _ _ _ Htab Hb Hi Hr Ht)
    as [Hget _].
  rewrite Hget in Hv. injection Hv as <-.
  unfold __setitem__. simpl. rewrite Ha, Htg.
  rewrite (setitem_normalized _ _ _ _ _ _ Hi).
  rewrite setitem_unit_row; [|done..|by apply (Forall_lookup_1 _ _ _ _ Hrows Hr)].
  rewrite list_insert_id by done.
  unfold setitem_object. cbn [shape].
  rewrite (setitem_normalized _ _ _ _ _ _ Hi).
  rewrite <- Hlen.
  rewrite setitem_unit_row;
    [|done|lia|done|by apply (Forall_lookup_1 _ _ _ _ Htrows Ht)].
  rewrite list_insert_id by done.
  rewrite Hlen, <- Ha, <- Htg. by destruct b.
Qed.

Lemma setitem_of_getitem_witness :
  let b := Batch BBoxesInternalType
             (NdArray [2; 4] [1; 1; 5; 5; 2; 2; 6; 6]%Q)
             (NdArray [2; 1] [OStr "a"; OStr "b"]) in
  __setitem__ b (IInt (-1))
    (Batch BBoxesInternalType (NdArray [1; 4] [2; 2; 6; 6]%Q)
       (NdArray [1; 1] [OStr "b"]))
  = (Ok (), b).
Proof.
  intros b.
  apply (setitem_of_getitem b [[1; 1; 5; 5]; [2; 2; 6; 6]]%Q
           [[OStr "a"]; [OStr "b"]] 4 1 (-1) 1); try reflexivity.
  repeat split; repeat constructor.
Defined.

(** X13. A record written by an integer in range is the record read back
    there, and no other row has changed. *)
Theorem getitem_of_setitem b rows trows w m i j r t :
  tabular b rows trows w m →
  check_consistency b = Ok () →
  normalize_index i (length rows) = Ok j →
  length r = w → length t = m →
  let v := Batch (cls b) (NdArray [1; w] r) (NdArray [1; m] t) in
  let b' := Batch (cls b)
              (NdArray [length rows; w] (concat (<[j := r]> rows)))
              (NdArray [length rows; m] (concat (<[j := t]> trows))) in
  __setitem__ b (IInt i) v = (Ok (), b') ∧
  __getitem__ b' (IInt i) = Ok v.
Proof.
  intros Htab Hb Hi Hr Ht v b'.
  pose proof Htab as (Ha & Htg & Hlen & Hrows & Htrows).
  pose proof (normalize_index_lt _ _ _ Hi) as Hj.
  assert (__setitem__ b (IInt i) v = (Ok (), b')) as Hset.
  { unfold __setitem__. simpl. rewrite Ha, Htg.
    rewrite (setitem_normalized _ _ _ _ _ _ Hi).
    rewrite setitem_unit_row by done.
    unfold setitem_object. cbn [shape].
    rewrite (setitem_normalized _ _ _ _ _ _ Hi). rewrite <- Hlen.
    rewrite setitem_unit_row; [|done|lia|done..]. by rewrite Hlen. }
  split; [done|].
  assert (tabular b' (<[j := r]> rows) (<[j := t]> trows) w m) as Htab'.
  { unfold tabular, b'. simpl. rewrite !length_insert.
    repeat split; try done; by apply Forall_insert. }
  assert (check_consistency b' = Ok ()) as Hb'.
  { pose proof (setitem_keeps_invariants b (IInt i) v Hb) as [H _].
    by rewrite Hset in H. }
  apply (getitem_int_is_one_row b' _ _ w m i j r t Htab' Hb').
  - by rewrite length_insert.
  - by apply list_lookup_insert_eq.
  - apply list_lookup_insert_eq. lia.
Qed.

Lemma getitem_of_setitem_witness :
  __getitem__
    (Batch BBoxesInternalType (NdArray [2; 4] [1; 1; 5; 5; 0; 0; 9; 9]%Q)
       (NdArray [2; 1] [OStr "a"; OStr "c"]))
    (IInt 1)
  = Ok (Batch BBoxesInternalType (NdArray [1; 4] [0; 0; 9; 9]%Q)
          (NdArray [1; 1] [OStr "c"])).
Proof.
  apply (getitem_of_setitem
           (Batch BBoxesInternalType
              (NdArray [2; 4] [1; 1; 5; 5; 2; 2; 6; 6]%Q)
              (NdArray [2; 1] [OStr "a"; OStr "b"]))
           [[1; 1; 5; 5]; [2; 2; 6; 6]]%Q [[OStr "a"]; [OStr "b"]]
           4 1 1 1 [0; 0; 9; 9]%Q [OStr "c"]); try reflexivity.
  repeat split; repeat constructor.
Defined.

(** X14. Writing at an integer outside [-n, n) raises [IndexError] and leaves
    the batch as it was. *)
Theorem setitem_out_of_range b n i v :
  len (array b) = Ok n →
  ¬ (- Z.of_nat n ≤ i < Z.of_nat n)%Z →
  __setitem__ b (IInt i) v = (Raise IndexError, b).
Proof.
  intros Hn Hi. unfold __setitem__, setitem, len in *.
  destruct (shape (array b)) as [|n' rest]; [done|].
  injection Hn as ->. unfold normalize_index.
  by rewrite !bool_decide_eq_false_2 by lia.
Qed.

Lemma setitem_out_of_range_witness :
  __setitem__ Examples.one_box (IInt 1) Examples.one_box
  = (Raise IndexError, Examples.one_box).
Proof. apply (setitem_out_of_range _ 1); [reflexivity|lia]. Defined.

Lemma slice_rows_all n : slice_rows None None None n = Ok (seq 0 n).
Proof.
  unfold slice_rows. simpl.
  assert ((if bool_decide (0 < Z.of_nat n)%Z
           then ((Z.of_nat n - 0 - 1) `div` 1 + 1)%Z else 0%Z)
          = Z.of_nat n) as ->.
  { case_bool_decide; [rewrite Z.div_1_r|]; lia. }
  rewrite Nat2Z.id. f_equal.
  rewrite <- (list_fmap_id (seq 0 n)) at 2.
  apply list_fmap_ext. intros _ k _. simpl. lia.
Qed.

Lemma rows_of_seq {A} sz (d : list A) n k :
  length d = (k + n) * sz →
  concat (map (λ p, take sz (drop (p * sz) d)) (seq k n)) = drop (k * sz) d.
Proof.
  revert k. induction n as [|n IH]; intros k Hd; simpl.
  - rewrite drop_ge; [done|]. lia.
  - rewrite IH by lia.
    replace (S k * sz) with (k * sz + sz) by lia.
    by rewrite <- drop_drop, take_drop.
Qed.

Lemma getitem_all {A} (a : ndarray A) n :
  wf a → len a = Ok n →
  getitem a (ISlice None None None) = Ok a.
Proof.
  unfold wf, len, getitem. intros Hwf Hn.
  destruct (shape a) as [|n' rest] eqn:Hs; [done|]. injection Hn as ->.
  rewrite slice_rows_all. cbn [mbind result_bind].
  rewrite length_seq. unfold row. rewrite Hs. cbn [tail data].
  rewrite (rows_of_seq _ _ n 0) by (simpl in Hwf; lia).
  rewrite <- Hs. by destruct a.
Qed.

(** X15. The slice [[:]] of a batch that satisfies the invariants is a batch
    with the same records and metadata. *)
Theorem getitem_full_slice b :
  check_consistency b = Ok () → wf (array b) → wf (targets b) →
  __getitem__ b (ISlice None None None) = Ok b.
Proof.
  intros Hb Hwa Hwt.
  pose proof (check_consistency_lens b Hb) as (n & Ha & Ht).
  unfold __getitem__.
  rewrite (getitem_all _ n), (getitem_all _ n) by done.
  unfold astype_float. cbn [fmap result_fmap mbind result_bind].
  pose proof Hb as Hf. unfold check_consistency in Hf.
  rewrite Ha, Ht in Hf. simpl in Hf.
  rewrite bool_decide_eq_false_2 in Hf by (intros H; by apply H).
  rewrite init_ndarray_steps, Ha by done. simpl.
  assert ((if bool_decide (n ≠ 0) then
             match shape (targets b) with
             | [] => Raise IndexError
             | 0 :: _ => Ok (empty [n; 0])
             | _ => Ok (targets b)
             end
           else Ok (targets b)) = Ok (targets b)) as ->.
  { case_bool_decide as Hn; [|done]. unfold len in Ht.
    destruct (shape (targets b)) as [|[|m] sh]; try done.
    injection Ht as <-. by destruct Hn. }
  simpl. destruct b as [k a t]. simpl in *. by rewrite Hb.
Qed.

Lemma getitem_full_slice_witness :
  __getitem__ Examples.one_box (ISlice None None None) = Ok Examples.one_box.
Proof. apply getitem_full_slice; reflexivity. Defined.

End BatchRows.

(** ** Dispatch: what a call leaves alone *)

Section DispatchMore.
Import Transform.
Variable C : TransformClass.

(** *** Quiet computations *)

Lemma quiet_ret {A} (a : A) : quiet (mret a : M A).
Proof. intros w. split; [done|]. exists []. by rewrite app_nil_r. Qed.

Lemma quiet_raise {A} e : quiet (raise e : M A).
Proof. intros w. split; [done|]. exists []. by rewrite app_nil_r. Qed.

Lemma quiet_lift {A} (r : result A) : quiet (lift r).
Proof. intros w. split; [done|]. exists []. by rewrite app_nil_r. Qed.

Lemma quiet_get_kwargs : quiet get_kwargs.
Proof. intros w. split; [done|]. exists []. by rewrite app_nil_r. Qed.

Lemma quiet_mutate key v : quiet (mutate key v).
Proof. intros w. split; [done|]. exists []. by rewrite app_nil_r. Qed.

Lemma quiet_log_target key h arg (P : pdict) : quiet (log (CTarget key h arg P)).
Proof. intros w. split; [done|]. eexists. split; [done|]. by repeat constructor. Qed.

Lemma quiet_bind {A B} (m : M A) (f : A → M B) :
  quiet m → (∀ a, quiet (f a)) → quiet (m ≫= f).
Proof.
  intros Hm Hf w. unfold mbind, M_bind.
  destruct (Hm w) as (Hr & l & Hl & Hfl).
  destruct (m w) as [[a|e] w']; simpl in *; [|by eauto].
  destruct (Hf a w') as (Hr' & l' & Hl' & Hfl'). split; [congruence|].
  exists (l ++ l'). rewrite Hl', Hl, app_assoc. split; [done|].
  by apply Forall_app.
Qed.

Create HintDb quiet.

#[local] Hint Resolve quiet_ret quiet_raise quiet_lift quiet_get_kwargs
  quiet_mutate quiet_log_target : quiet.

Ltac quiet :=
  repeat first
    [ apply quiet_bind; [|intros ?]
    | progress eauto with quiet
    | match goal with
      | |- quiet (match ?x with _ => _ end) => destruct x
      | |- quiet (if ?x then _ else _) => destruct x
      | |- quiet (let '(_, _) := ?x in _) => destruct x
      end ].

Lemma quiet_call_target key h arg (P : pdict) :
  quiet (call_target C key h arg P).
Proof.
  unfold call_target. apply quiet_bind; [by quiet|]. intros _.
  destruct h; try (by quiet); destruct arg; by quiet.
Qed.

Lemma quiet_transform_item self (P : pdict) key arg :
  quiet (transform_item C self P key arg).
Proof.
  unfold transform_item.
  destruct arg; try (by quiet);
    repeat (apply quiet_bind; [by quiet|intros ?]); apply quiet_call_target.
Qed.

Lemma quiet_dispatch self (P : pdict) items :
  quiet (dispatch C self P items).
Proof.
  induction items as [|[key arg] items IH]; simpl; [by quiet|].
  apply quiet_bind; [apply quiet_transform_item|]. intros r.
  apply quiet_bind; [done|]. intros res. by quiet.
Qed.

Lemma quiet_apply_with_params self params :
  quiet (apply_with_params C self params).
Proof.
  unfold apply_with_params. apply quiet_bind; [by quiet|]. intros kw.
  destruct params; [|by quiet].
  apply quiet_bind; [by quiet|]. intros P. apply quiet_dispatch.
Qed.

(** X16. In replay mode nothing is drawn and nothing generated: the random
    source is left as it is, and the only calls made are to target
    functions. *)
Theorem replay_draws_nothing self force_apply kw (g : rng) :
  replay_mode self = true →
  random_state (invoke C self [] force_apply kw g).2 = g ∧
  Forall is_target (calls (invoke C self [] force_apply kw g).2).
Proof.
  intros Hr. unfold invoke, __call__. rewrite Hr.
  destruct (applied_in_replay self); [|by split].
  destruct (quiet_apply_with_params self (params self) (World g kw []))
    as (Hg & l & Hl & Hfl).
  split; [done|]. by rewrite Hl.
Qed.

(** *** Results depend on the objects only *)

Lemma framed_ret {A} (a : A) : framed (mret a : M A).
Proof. by intros w w' H. Qed.

Lemma framed_raise {A} e : framed (raise e : M A).
Proof. by intros w w' H. Qed.

Lemma framed_lift {A} (r : result A) : framed (lift r).
Proof. by intros w w' H. Qed.

Lemma framed_get_kwargs : framed get_kwargs.
Proof. intros w w' H. simpl. by rewrite H. Qed.

Lemma framed_mutate key v : framed (mutate key v).
Proof. intros w w' H. simpl. by rewrite H. Qed.

Lemma framed_log c : framed (log c).
Proof. by intros w w' H. Qed.

Lemma framed_bind {A B} (m : M A) (f : A → M B) :
  framed m → (∀ a, framed (f a)) → framed (m ≫= f).
Proof.
  intros Hm Hf w w' H. unfold mbind, M_bind.
  destruct (Hm w w' H) as [Hr Ho].
  destruct (m w) as [[a|e] w1], (m w') as [[a'|e'] w1']; simpl in *;
    try done.
  - injection Hr as <-. by apply Hf.
  - by injection Hr as <-.
Qed.

Create HintDb framed.

#[local] Hint Resolve framed_ret framed_raise framed_lift framed_get_kwargs
  framed_mutate framed_log : framed.

Ltac framed :=
  repeat first
    [ apply framed_bind; [|intros ?]
    | progress eauto with framed
    | match goal with
      | |- framed (match ?x with _ => _ end) => destruct x
      | |- framed (if ?x then _ else _) => destruct x
      | |- framed (let '(_, _) := ?x in _) => destruct x
      end ].

Lemma framed_call_target key h arg (P : pdict) :
  framed (call_target C key h arg P).
Proof.
  unfold call_target. apply framed_bind; [by framed|]. intros _.
  destruct h; try (by framed); destruct arg; by framed.
Qed.

Lemma framed_transform_item self (P : pdict) key arg :
  framed (transform_item C self P key arg).
Proof.
  unfold transform_item.
  destruct arg; try (by framed);
    repeat (apply framed_bind; [by framed|intros ?]); apply framed_call_target.
Qed.

Lemma framed_dispatch self (P : pdict) items :
  framed (dispatch C self P items).
Proof.
  induction items as [|[key arg] items IH]; simpl; [by framed|].
  apply framed_bind; [apply framed_transform_item|]. intros r.
  apply framed_bind; [done|]. intros res. by framed.
Qed.

Lemma framed_apply_with_params self params :
  framed (apply_with_params C self params).
Proof.
  unfold apply_with_params. apply framed_bind; [by framed|]. intros kw.
  destruct params; [|by framed].
  apply framed_bind; [by framed|]. intros P. apply framed_dispatch.
Qed.

Lemma get_target_function_ext self self' key :
  _additional_targets self' = _additional_targets self →
  _get_target_function C self' key = _get_target_function C self key.
Proof. intros H. unfold _get_target_function. by rewrite H. Qed.

Lemma dispatch_ext self self' (P : pdict) items w :
  _additional_targets self' = _additional_targets self →
  dispatch C self' P items w = dispatch C self P items w.
Proof.
  intros H. revert w. induction items as [|[key arg] items IH]; intros w;
    [done|].
  simpl. unfold mbind at 1 3, M_bind at 1 3.
  assert (transform_item C self' P key arg w = transform_item C self P key arg w)
    as ->.
  { unfold transform_item. destruct arg; try done;
      by rewrite (get_target_function_ext self self'). }
  destruct (transform_item C self P key arg w) as [[r|e] w1]; [|done].
  unfold mbind, M_bind. by rewrite IH.
Qed.

(** X17. Replaying the parameters a call generated on the same data gives
    the result of that call: a transform that fired with the
    parameters [P], and the same transform put in replay mode with
    [params = P], return the same mapping and leave the same objects. *)
Theorem replay_reproduces self self' force_apply force_apply' kw
    (g g' : rng) (P : pdict) w1 :
  replay_mode self = false →
  deterministic self = false →
  Qltb (g 0%nat) (p self) || always_apply self || force_apply = true →
  generate C (World (λ n, g (S n)) kw [CRandom]) = (Ok P, w1) →
  replay_mode self' = true →
  applied_in_replay self' = true →
  params self' = Some P →
  _additional_targets self' = _additional_targets self →
  (invoke C self' [] force_apply' kw g').1
  = (invoke C self [] force_apply kw g).1 ∧
  objects (invoke C self' [] force_apply' kw g').2
  = objects (invoke C self [] force_apply kw g).2.
Proof.
  intros Hrm Hdet Hfire Hgen Hrm' Hap Hps Hat.
  rewrite (invoke_normal C self force_apply kw g Hrm), Hfire.
  unfold fire. rewrite (bind_ok _ _ _ _ _ Hgen), Hdet.
  erewrite bind_ok by reflexivity.
  unfold invoke, __call__. rewrite Hrm', Hap, Hps.
  pose proof (generate_objects C (World (λ n, g (S n)) kw [CRandom])) as Ho.
  rewrite Hgen in Ho. simpl in Ho.
  assert (apply_with_params C self' (Some P) (World g' kw [])
          = apply_with_params C self (Some P) (World g' kw [])) as ->.
  { unfold apply_with_params, mbind, M_bind, get_kwargs, lift. simpl.
    destruct (update_params C P kw); [|done]. by apply dispatch_ext. }
  apply framed_apply_with_params. by rewrite Ho.
Qed.

End DispatchMore.

Section DispatchExamples.
Import Transform.

Lemma replay_draws_nothing_witness :
  random_state
    (invoke Examples.Shift Examples.replaying [] false
       [("image", VArray Examples.image10); ("bboxes", VBatch Examples.one_box)]
       Examples.halves).2
  = Examples.halves.
Proof.
  apply (replay_draws_nothing Examples.Shift Examples.replaying). reflexivity.
Defined.

Lemma replay_reproduces_witness :
  (invoke Examples.Shift Examples.replaying [] false
     [("image", VArray Examples.image10); ("bboxes", VBatch Examples.one_box)]
     Examples.halves).1
  = (invoke Examples.Shift (__init__ 1 false 1) [] false
       [("image", VArray Examples.image10); ("bboxes", VBatch Examples.one_box)]
       Examples.halves).1.
Proof.
  apply (replay_reproduces Examples.Shift (__init__ 1 false 1)
           Examples.replaying false false
           [("image", VArray Examples.image10);
            ("bboxes", VBatch Examples.one_box)]
           Examples.halves Examples.halves
           {[ "dx" := VFloat (1 # 2) ]}
           (World (λ n, Examples.halves (S (S n)))
              [("image", VArray Examples.image10);
               ("bboxes", VBatch Examples.one_box)]
              [CRandom; CGetParams])); reflexivity.
Defined.

End DispatchExamples.

(** ** Calls: keys, parameters, required targets *)

Section CallsMore.
Import Transform.
Variable C : TransformClass.

Lemma dispatch_keys self (P : pdict) items w res w' :
  dispatch C self P items w = (Ok res, w') →
  res.*1 = items.*1 ∧
  ∀ i key, items !! i = Some (key, VNone) → res !! i = Some (key, VNone).
Proof.
  revert w res. induction items as [|[key arg] items IH]; intros w res.
  - by intros [= <- <-].
  - simpl. unfold mbind at 1, M_bind at 1.
    destruct (transform_item C self P key arg w) as [[r|e] w1] eqn:Hi; [|done].
    unfold mbind, M_bind.
    destruct (dispatch C self P items w1) as [[res'|e] w2] eqn:Hd; [|done].
    intros [= <- <-]. destruct (IH _ _ Hd) as [Hk Hn]. split.
    + rewrite !fmap_cons. f_equal. exact Hk.
    + intros [|i] key'; simpl; [|by apply Hn].
      intros [= -> ->]. by injection Hi as <- _.
Qed.

Lemma mutate_keys key v (kw : kwargs) :
  (map (λ kv : string * value,
          if bool_decide (kv.1 = key) then (key, v) else kv) kw).*1 = kw.*1.
Proof.
  induction kw as [|[k x] kw IH]; [done|]. simpl.
  f_equal; [by case_bool_decide; simplify_eq/=|exact IH].
Qed.

Lemma getitem_lookup (kw : kwargs) i key v :
  NoDup kw.*1 → kw !! i = Some (key, v) → getitem key kw = Ok v.
Proof.
  revert i. induction kw as [|[k x] kw IH]; intros i Hnd Hi; [done|].
  simpl in *. apply NoDup_cons in Hnd as [Hk Hnd].
  destruct i as [|i]; simpl in Hi.
  - injection Hi as -> ->. by rewrite bool_decide_eq_true_2.
  - rewrite bool_decide_eq_false_2; [by eapply IH|].
    intros ->. apply Hk. apply list_elem_of_fmap.
    exists (key, v). split; [done|]. by eapply list_elem_of_lookup_2.
Qed.

(** X18. Whatever a successful call did, its result has the keys of the call
    in their order, and a key passed as [None] comes back as [None]. *)
Theorem invoke_keeps_keys self args force_apply kw (g : rng) res w' :
  NoDup kw.*1 →
  invoke C self args force_apply kw g = (Ok res, w') →
  res.*1 = kw.*1 ∧
  ∀ i key, kw !! i = Some (key, VNone) → res !! i = Some (key, VNone).
Proof.
  intros Hnd.
  assert (∀ params w res w',
            apply_with_params C self params w = (Ok res, w') →
            res.*1 = (objects w).*1 ∧
            ∀ i key, objects w !! i = Some (key, VNone) →
                     res !! i = Some (key, VNone)) as Hawp.
  { intros params w r w1. unfold apply_with_params, mbind, M_bind, get_kwargs.
    destruct params as [P0|]; [|by intros [= <- <-]].
    unfold lift. destruct (update_params C P0 (objects w)) as [P|]; [|done].
    apply dispatch_keys. }
  unfold invoke, __call__. destruct args; [|done].
  destruct (replay_mode self).
  { destruct (applied_in_replay self); [apply Hawp|by intros [= <- <-]]. }
  unfold mbind, M_bind, random_random. simpl.
  destruct (Qltb (g 0) (p self) || always_apply self || force_apply);
    [|by intros [= <- <-]].
  unfold fire. unfold mbind at 1, M_bind at 1.
  pose proof (generate_objects C (World (λ n, g (S n)) kw [CRandom])) as Ho.
  destruct (generate C _) as [[P|e] w1]; [|done]. simpl in Ho.
  unfold mbind, M_bind.
  destruct (deterministic self).
  - pose proof (record_spec self P w1) as Hrec. rewrite Ho in Hrec.
    destruct (getitem (save_key self) kw) as [store|e] eqn:Hget.
    + destruct store as [| | | | | |s].
      7:{ rewrite Hrec. unfold mutate. intros H.
          apply Hawp in H as [Hk Hn]. simpl in *. rewrite Ho in *.
          split; [by rewrite Hk, mutate_keys|].
          intros i key Hi. apply Hn.
          rewrite list_lookup_fmap, Hi. simpl.
          rewrite bool_decide_eq_false_2; [done|].
          intros ->. pose proof (getitem_lookup _ _ _ _ Hnd Hi). congruence. }
      all: destruct Hrec as [e ->]; done.
    + by rewrite Hrec.
  - intros H. apply Hawp in H. by rewrite Ho in H.
Qed.

(** A firing call needs an object named ["image"], whatever the targets
    are: without it the call raises [KeyError] once the parameters are
    generated, and no target function is called. *)
Theorem fire_without_image self force_apply kw (g : rng) (P : pdict) w1 :
  replay_mode self = false →
  deterministic self = false →
  Qltb (g 0%nat) (p self) || always_apply self || force_apply = true →
  generate C (World (λ n, g (S n)) kw [CRandom]) = (Ok P, w1) →
  getitem "image" kw = Raise KeyError →
  invoke C self [] force_apply kw g = (Raise KeyError, w1).
Proof.
  intros Hrm Hdet Hfire Hgen Himg.
  rewrite (invoke_normal C), Hfire by done.
  pose proof (generate_objects C (World (λ n, g (S n)) kw [CRandom])) as Ho.
  rewrite Hgen in Ho. simpl in Ho.
  unfold fire. rewrite (bind_ok _ _ _ _ _ Hgen), Hdet.
  erewrite bind_ok by reflexivity.
  unfold apply_with_params, mbind, M_bind, get_kwargs, lift.
  unfold update_params. rewrite Ho, Himg. done.
Qed.


End CallsMore.

(** ** Target functions of a dual transform *)

Section TargetsMore.
Import Transform.
Variable C : TransformClass.

Lemma apply_to_rows_frame f (P : pdict) todo b :
  cls (apply_to_rows f P todo b).2 = cls b ∧
  Py.targets (apply_to_rows f P todo b).2 = Py.targets b ∧
  shape (array (apply_to_rows f P todo b).2) = shape (array b) ∧
  ∀ b', (apply_to_rows f P todo b).1 = Ok b' →
        b' = (apply_to_rows f P todo b).2.
Proof.
  revert b. induction todo as [|i todo IH]; intros b; simpl.
  - split_and!; try done. by intros b' [= <-].
  - destruct (f _ P) as [r|e]; [|by split_and!].
    destruct (setitem _ _ _) as [a'|e] eqn:Hs; [|by split_and!].
    destruct (IH (Batch (cls b) a' (Py.targets b))) as (Hk & Ht & Hsh & Hr).
    simpl in *. split_and!; try done.
    rewrite Hsh. by apply setitem_shape in Hs.
Qed.

(** X24. [apply_to_bboxes] and [apply_to_keypoints] write records only: the
    batch keeps its class, its metadata and the shape of its records,
    whether the loop ends or a row fails, and what is returned is the
    batch that was passed, in its state after the loop. *)
Theorem apply_to_batch_writes_records_only (b : batch) (P : pdict) :
  Forall (λ rb : result batch * batch,
            cls rb.2 = cls b ∧
            Py.targets rb.2 = Py.targets b ∧
            shape (array rb.2) = shape (array b) ∧
            ∀ b', rb.1 = Ok b' → b' = rb.2)
         [apply_to_bboxes C b P; apply_to_keypoints C b P].
Proof.
  unfold apply_to_bboxes, apply_to_keypoints.
  apply Forall_cons; split; [|apply Forall_cons; split; [|done]];
    (destruct (len (array b)) as [n|e];
     [apply apply_to_rows_frame|by split_and!]).
Qed.

Lemma apply_to_rows_stops f (P : pdict) k n w tg pre seen seen' r rem e :
  Forall (λ r, length r = w) pre →
  Forall2 (λ r r', length r = w ∧ f (NdArray [w] r) P = Ok r' ∧ length r' = w)
          seen seen' →
  length r = w →
  f (NdArray [w] r) P = Raise e →
  n = length pre + length (seen ++ r :: rem) →
  apply_to_rows f P (seq (length pre) (length (seen ++ r :: rem)))
    (Batch k (NdArray [n; w] (concat (pre ++ seen ++ r :: rem))) tg)
  = (Raise e, Batch k (NdArray [n; w] (concat (pre ++ seen' ++ r :: rem))) tg).
Proof.
  intros Hpre Hseen Hr Hf. revert pre Hpre.
  induction Hseen as [|s s' seen seen' (Hs & Hfs & Hs') _ IH];
    intros pre Hpre Hn.
  - simpl in *. by rewrite row_concat, Hf.
  - simpl in *. rewrite row_concat, Hfs by done.
    rewrite setitem_row by (done || lia).
    replace (pre ++ s' :: seen ++ r :: rem)
      with ((pre ++ [s']) ++ seen ++ r :: rem) by (by rewrite <- app_assoc).
    replace (pre ++ s' :: seen' ++ r :: rem)
      with ((pre ++ [s']) ++ seen' ++ r :: rem) by (by rewrite <- app_assoc).
    replace (S (length pre)) with (length (pre ++ [s']))
      by (rewrite length_app; simpl; lia).
    apply IH.
    + apply Forall_app. split; [done|]. by constructor.
    + rewrite length_app. simpl. lia.
Qed.

(** X25. When [apply_to_bbox] raises on a row, [apply_to_bboxes] raises the
    same exception and the caller's batch is left half transformed: the
    rows before it are rewritten, that row and the rows after it are
    not. *)
Theorem apply_to_bboxes_stops_at_failure
    (P : pdict) k w tg seen seen' r rem e :
  Forall2 (λ r r', length r = w ∧ apply_to_bbox C (NdArray [w] r) P = Ok r'
                   ∧ length r' = w) seen seen' →
  length r = w →
  apply_to_bbox C (NdArray [w] r) P = Raise e →
  let n := length (seen ++ r :: rem) in
  apply_to_bboxes C (Batch k (NdArray [n; w] (concat (seen ++ r :: rem))) tg) P
  = (Raise e, Batch k (NdArray [n; w] (concat (seen' ++ r :: rem))) tg).
Proof.
  intros Hseen Hr Hf n. unfold apply_to_bboxes. cbn [len array shape].
  by apply (apply_to_rows_stops _ P k n w tg [] seen seen' r rem e).
Qed.

Lemma traverse_ok {A B} (f : A → result B) l rs :
  traverse f l = Ok rs ↔ Forall2 (λ x y, f x = Ok y) l rs.
Proof.
  revert rs. induction l as [|x l IH]; intros rs; simpl.
  - split; [by intros [= <-]; constructor|by inversion 1].
  - destruct (f x) as [y|e] eqn:Hx; simpl.
    + destruct (traverse f l) as [ys|e] eqn:Hl; simpl.
      * split.
        -- intros [= <-]. constructor; [done|]. by apply IH.
        -- inversion 1 as [|? y' ? ys' Hy Hys]; subst.
           apply IH in Hys. congruence.
      * split; [done|].
        inversion 1 as [|? y' ? ys' Hy Hys]; subst.
        by apply IH in Hys.
    + split; [done|]. inversion 1; congruence.
Qed.

(** X26. [apply_to_masks] on a list returns a list of the same length whose
    every item is [apply] of the mask at that place, called with
    nearest-neighbour interpolation; it succeeds exactly when [apply]
    does on every mask. *)
Theorem apply_to_masks_elementwise (masks : list value) (P : pdict) rs :
  apply_to_masks C (VList masks) P = Ok (VList rs) ↔
  Forall2 (λ mask r, apply C mask (nearest P) = Ok r) masks rs.
Proof.
  unfold apply_to_masks, apply_to_mask. simpl.
  rewrite <- traverse_ok.
  destruct (traverse _ masks) as [ys|e]; simpl; [|done].
  split; congruence.
Qed.

(** X27. An alias is followed once: a key registered for [canon] gets the
    target function the table has for [canon] itself, whatever the
    aliases say about [canon]. *)
Theorem alias_followed_once self (m : gmap string string) key canon :
  m !! key = Some canon →
  _get_target_function C (add_targets self m) key
  = _get_target_function C (add_targets self ∅) canon.
Proof.
  intros Hk. unfold _get_target_function, add_targets. simpl.
  by rewrite Hk, lookup_empty.
Qed.

End TargetsMore.

(** ** Parameters of a firing call *)

Section GenerateMore.
Import Transform.
Variable C : TransformClass.

Lemma generate_calls w :
  ∃ l, calls (generate C w).2 = calls w ++ CGetParams :: l.
Proof.
  unfold generate, mbind, M_bind, draw, get_kwargs, lift, raise.
  destruct (get_params C (random_state w)) as [[P|e] g1]; [|by exists []].
  destruct (targets_as_params C) as [|key keys]; [by exists []|].
  cbn [objects random_state calls].
  destruct (forallb _ (key :: keys)); [|by exists []].
  destruct (collect (key :: keys) _) as [T|e]; [|by exists []].
  destruct (get_params_dependent_on_targets C _ _) as [[?|?] ?];
    eexists; simpl; by rewrite <- app_assoc.
Qed.

(** X21. Outside replay mode [always_apply] and [force_apply] make the call
    fire whatever the random source returns, and the number is drawn all
    the same: the first thing a forced call does is [random.random()],
    the second [get_params()]. *)
Theorem forced_call_draws_then_fires self force_apply kw (g : rng) :
  replay_mode self = false →
  always_apply self || force_apply = true →
  ∃ l, calls (invoke C self [] force_apply kw g).2
       = CRandom :: CGetParams :: l.
Proof.
  intros Hrm Hforce. rewrite (invoke_normal C self force_apply kw g Hrm).
  rewrite <- orb_assoc, Hforce, orb_true_r.
  unfold fire. unfold mbind at 1, M_bind at 1.
  destruct (generate_calls (World (λ n, g (S n)) kw [CRandom])) as [l Hl].
  destruct (generate C _) as [[P|e] w1]; simpl in Hl; [|by eauto].
  assert (grows (_ ← (if deterministic self then record self P else mret ());
                 apply_with_params C self (Some P))) as Hg.
  { apply grows_bind;
      [destruct (deterministic self); [apply grows_record|apply grows_ret]|].
    intros _. apply grows_apply_with_params. }
  destruct (Hg w1) as [l' Hl']. exists (l ++ l').
  by rewrite Hl', Hl.
Qed.

Lemma collect_lookup keys kw (d : pdict) k :
  collect keys kw = Ok d →
  d !! k = if bool_decide (k ∈ keys)
           then match getitem k kw with Ok v => Some v | Raise _ => None end
           else None.
Proof.
  revert d. induction keys as [|key keys IH]; intros d; simpl.
  - by intros [= <-].
  - destruct (getitem key kw) as [v|e] eqn:Hv; [simpl|done].
    destruct (collect keys kw) as [d'|e]; [simpl|done].
    intros [= <-]. specialize (IH d' eq_refl).
    destruct (decide (k = key)) as [->|Hne].
    + rewrite lookup_insert, Hv, bool_decide_eq_true_2 by constructor.
      by rewrite decide_True.
    + rewrite lookup_insert_ne by done. rewrite IH.
      rewrite (bool_decide_ext (k ∈ key :: keys) (k ∈ keys)); [done|].
      rewrite elem_of_cons. split; [by intros [?|?]|by right].
Qed.

Lemma collect_ok keys kw :
  forallb (λ key, is_ok (getitem key kw)) keys = true →
  ∃ d, collect keys kw = Ok d.
Proof.
  induction keys as [|key keys IH]; simpl; [by eauto|].
  intros [Hk Hks]%andb_true_iff.
  destruct (getitem key kw); [|done]. destruct (IH Hks) as [d ->].
  simpl. eauto.
Qed.

(** X22. A class that names [targets_as_params] and is called without one of
    them fails the assertion: [get_params] has run, and
    [get_params_dependent_on_targets] is not called. *)
Theorem missing_target_as_param (P0 : pdict) g1 w key :
  key ∈ targets_as_params C →
  getitem key (objects w) = Raise KeyError →
  get_params C (random_state w) = (Ok P0, g1) →
  generate C w
  = (Raise AssertionError, World g1 (objects w) (calls w ++ [CGetParams])).
Proof.
  intros Hin Hkey Hgen. unfold generate, mbind, M_bind, draw, get_kwargs.
  rewrite Hgen.
  destruct (targets_as_params C) as [|k0 keys] eqn:Hk;
    [by apply elem_of_nil in Hin|].
  cbn [objects].
  assert (forallb (λ key, is_ok (getitem key (objects w))) (k0 :: keys)
          = false) as ->; [|done].
  apply not_true_is_false. intros Hall.
  rewrite forallb_forall in Hall.
  specialize (Hall key). rewrite Hkey in Hall.
  apply list_elem_of_In in Hin. by specialize (Hall Hin).
Qed.

(** X23. When every key of [targets_as_params] is passed, the comprehension
    after the assertion cannot fail: [get_params_dependent_on_targets]
    is called, after [get_params], with exactly the objects passed under
    those keys, and in the parameters of the call its result takes
    precedence over that of [get_params]. *)
Theorem generate_with_targets (P0 : pdict) g1 w :
  targets_as_params C ≠ [] →
  forallb (λ key, is_ok (getitem key (objects w))) (targets_as_params C)
  = true →
  get_params C (random_state w) = (Ok P0, g1) →
  ∃ T : pdict,
    (∀ k, T !! k = if bool_decide (k ∈ targets_as_params C)
                   then match getitem k (objects w) with
                        | Ok v => Some v
                        | Raise _ => None
                        end
                   else None) ∧
    generate C w
    = (let '(r, g2) := get_params_dependent_on_targets C T g1 in
       ((λ PD : pdict, PD ∪ P0) <$> r,
        World g2 (objects w)
          (calls w ++ [CGetParams; CGetParamsDependentOnTargets T]))).
Proof.
  intros Hne Hall Hgen.
  destruct (collect_ok _ _ Hall) as [T HT]. exists T.
  split; [intros k; by apply collect_lookup|].
  unfold generate, mbind, M_bind, draw, get_kwargs, lift.
  rewrite Hgen.
  destruct (targets_as_params C) as [|k0 keys]; [done|].
  cbn [objects random_state calls]. rewrite Hall, HT.
  simpl.
  destruct (get_params_dependent_on_targets C T g1) as [[PD|e] g2];
    simpl; by rewrite <- app_assoc.
Qed.

(** X20. The failures of [update_params]: [KeyError] without an object named
    ["image"], [AttributeError] when that object is not an array ([None]
    included), [IndexError] when the array has fewer than two
    dimensions. *)
Theorem update_params_raises (P : pdict) kw e :
  update_params C P kw = Raise e ↔
  match getitem "image" kw with
  | Raise _ => e = KeyError
  | Ok (VArray a) => length (shape a) < 2 ∧ e = IndexError
  | Ok _ => e = AttributeError
  end.
Proof.
  unfold update_params.
  destruct (getitem "image" kw) as [[| | |a| | |]|e'] eqn:Hi; simpl;
    try (split; congruence).
  - destruct (shape a) as [|rows [|cols rest]]; simpl.
    + split; [intros [= <-]; split; [lia|done]|intros [_ ->]; done].
    + split; [intros [= <-]; split; [lia|done]|intros [_ ->]; done].
    + split; [done|]. intros [? _]. lia.
  - rewrite (getitem_raises _ _ _ Hi). split; congruence.
Qed.

End GenerateMore.

(** ** Image-only transforms *)

Section ImageOnly.
Import Transform.
Variable C : TransformClass.

Lemma image_only_handler self key :
  parent C = ImageOnlyTransform →
  _get_target_function C self key
  = Ok (if bool_decide (default key (_additional_targets self !! key) = "image")
        then Apply else Identity).
Proof.
  intros image_only.
  unfold _get_target_function, targets. rewrite image_only. simpl. f_equal.
  assert ((if bool_decide (is_Some (_additional_targets self !! key))
           then default key (_additional_targets self !! key) else key)
          = default key (_additional_targets self !! key)) as ->.
  { by destruct (_additional_targets self !! key). }
  case_bool_decide as Hk.
  - rewrite Hk. by simplify_map_eq.
  - by rewrite lookup_singleton_ne.
Qed.

Lemma image_only_item self (P : pdict) key arg w :
  parent C = ImageOnlyTransform →
  objects (transform_item C self P key arg w).2 = objects w ∧
  (default key (_additional_targets self !! key) ≠ "image" →
   ∀ r, (transform_item C self P key arg w).1 = Ok r → r = arg).
Proof.
  intros image_only.
  assert (∀ h deps a,
            h = Apply ∨ h = Identity →
            objects (call_target C key h a (deps ∪ P) w).2 = objects w ∧
            (h = Identity →
             ∀ r, (call_target C key h a (deps ∪ P) w).1 = Ok r → r = a))
    as Hcall.
  { intros h deps a [-> | ->]; unfold call_target, mbind, M_bind, log, lift.
    - cbn. by destruct (apply C a (deps ∪ P)).
    - cbn. split; [done|]. by intros _ r [= <-]. }
  unfold transform_item.
  destruct arg; (try by (split; [done|by intros _ r [= <-]]));
    unfold mbind, M_bind, lift, get_kwargs;
    rewrite (image_only_handler self key image_only);
    (destruct (collect _ (objects w)) as [deps|]; [|by split]);
    (case_bool_decide as Hk;
     [edestruct (Hcall Apply deps) as [H1 _]; [by left|]; by split
     |edestruct (Hcall Identity deps) as [H1 H2]; [by right|];
      split; [exact H1|]; intros _; by apply H2]).
Qed.

Lemma image_only_dispatch self (P : pdict) items w :
  parent C = ImageOnlyTransform →
  objects (dispatch C self P items w).2 = objects w ∧
  ∀ res, (dispatch C self P items w).1 = Ok res →
    ∀ i key v, items !! i = Some (key, v) →
      default key (_additional_targets self !! key) ≠ "image" →
      res !! i = Some (key, v).
Proof.
  intros image_only.
  revert w. induction items as [|[key arg] items IH]; intros w.
  - split; [done|]. by intros res _ i key v.
  - simpl. unfold mbind at 1 3, M_bind at 1 3.
    destruct (image_only_item self P key arg w image_only) as [Ho Hr].
    destruct (transform_item C self P key arg w) as [[r|e] w1];
      [|by split]. simpl in Ho, Hr.
    unfold mbind, M_bind. destruct (IH w1) as [Ho' Hres].
    destruct (dispatch C self P items w1) as [[res'|e] w2]; simpl in *;
      (split; [congruence|]); [|done].
    intros res [= <-] [|i] k v; simpl.
    + intros [= -> ->] Hk. by rewrite (Hr Hk r eq_refl).
    + by apply Hres.
Qed.

(** X28. An image-only transform writes into none of the objects it is given,
    and returns as it is every object other than the image and what is
    registered as an image. *)
Theorem image_only_leaves_others self params w :
  parent C = ImageOnlyTransform →
  objects (apply_with_params C self params w).2 = objects w ∧
  ∀ res, (apply_with_params C self params w).1 = Ok res →
    ∀ i key v, objects w !! i = Some (key, v) →
      default key (_additional_targets self !! key) ≠ "image" →
      res !! i = Some (key, v).
Proof.
  intros image_only.
  unfold apply_with_params, mbind, M_bind, get_kwargs, lift.
  destruct params as [P0|]; [|split; [done|by intros res [= <-]]].
  destruct (update_params C P0 (objects w)) as [P|]; [|by split].
  by apply image_only_dispatch.
Qed.

End ImageOnly.

(** ** Export of the configuration *)

Section Serialization.
Import Transform.

Lemma comprehension_lookup g (d0 d : gmap string config) names k :
  comprehension g d0 names = Ok d →
  d !! k = if bool_decide (k ∈ names)
           then match g k with Ok v => Some v | Raise _ => None end
           else d0 !! k.
Proof.
  revert d0. induction names as [|name names IH]; intros d0; simpl.
  - by intros [= <-].
  - destruct (g name) as [v|e] eqn:Hv; [simpl|done].
    intros H. rewrite (IH _ H).
    destruct (decide (k ∈ names)) as [Hin|Hin].
    + rewrite !bool_decide_eq_true_2; [done|by constructor|done].
    + rewrite (bool_decide_eq_false_2 (k ∈ names)) by done.
      destruct (decide (k = name)) as [->|Hne].
      * rewrite lookup_insert, Hv, bool_decide_eq_true_2 by constructor.
        by rewrite decide_True.
      * rewrite lookup_insert_ne by done.
        rewrite bool_decide_eq_false_2; [done|].
        rewrite elem_of_cons. by intros [?|?].
Qed.

(** X29. The exported dictionary: under each name of
    [get_transform_init_args_names] the attribute of that name, also
    when the name is ["p"], ["always_apply"] or ["__class_fullname__"];
    under those three, otherwise, the base arguments and the class name;
    and nothing else. *)
Theorem to_dict_lookup S self d :
  _to_dict S self = Ok d →
  ∃ names,
    get_transform_init_args_names S = Ok names ∧
    ∀ k, d !! k =
      if bool_decide (k ∈ names)
      then match getattr S k with Ok v => Some v | Raise _ => None end
      else if bool_decide (k = "p") then Some (CFloat (p self))
      else if bool_decide (k = "always_apply")
           then Some (CBool (always_apply self))
      else if bool_decide (k = "__class_fullname__")
           then Some (CStr (class_fullname S))
      else None.
Proof.
  unfold _to_dict, get_transform_init_args, get_base_init_args.
  destruct (get_transform_init_args_names S) as [names|e]; [simpl|done].
  destruct (comprehension _ ∅ names) as [args|e] eqn:Hargs; [simpl|done].
  intros [= <-]. exists names. split; [done|]. intros k.
  pose proof (comprehension_lookup _ _ _ _ k Hargs) as Hk.
  rewrite lookup_union, Hk.
  destruct (decide (k ∈ names)) as [e0|e0].
  - rewrite bool_decide_eq_true_2 by done.
    destruct (getattr S k) as [v|e] eqn:Hget; [|].
    + by rewrite union_Some_l.
    + exfalso. rewrite bool_decide_eq_true_2 in Hk by done.
      assert (is_Some (args !! k)) as [v Hv]; [|congruence].
      clear Hk. revert Hargs. generalize (∅ : gmap string config).
      induction names as [|n ns IH]; [by apply elem_of_nil in e0|].
      intros d0. simpl. destruct (getattr S n) eqn:Hn; [simpl|done].
      destruct (decide (k = n)) as [->|Hne]; [congruence|].
      apply IH. apply elem_of_cons in e0. by destruct e0.
  - rewrite bool_decide_eq_false_2, lookup_empty, (left_id_L None _) by done.
    rewrite lookup_union.
    repeat (case_bool_decide; [by simplify_map_eq|]).
    by simplify_map_eq.
Qed.

(** X30. [get_dict_with_id] is the exported dictionary with [id(self)] under
    ["id"], over an attribute of that name if there is one; it fails
    when the export does, and [to_dict_private] is the same export. *)
Theorem get_dict_with_id_sets_id S self :
  to_dict_private S self = _to_dict S self ∧
  match _to_dict S self with
  | Ok d0 =>
      ∃ d, get_dict_with_id S self = Ok d ∧
           d !! "id" = Some (CInt (id self)) ∧
           ∀ k, k ≠ "id" → d !! k = d0 !! k
  | Raise e => get_dict_with_id S self = Raise e
  end.
Proof.
  split; [reflexivity|]. unfold get_dict_with_id.
  destruct (_to_dict S self) as [d0|e]; [simpl|done].
  eexists. split; [done|]. split; [by rewrite lookup_insert|].
  intros k Hk. by rewrite lookup_insert_ne.
Qed.

End Serialization.

(** ** The statements above on the example transforms *)

Section MoreExamples.
Import Transform.

Lemma invoke_keeps_keys_witness :
  let kw := [("image", VArray Examples.image10); ("mask", VNone)] in
  let res := [("image", VArray Examples.image10); ("mask", VNone)] in
  res.*1 = kw.*1 ∧
  ∀ i key, kw !! i = Some (key, VNone) → res !! i = Some (key, VNone).
Proof.
  intros kw res.
  apply (invoke_keeps_keys Examples.Shift (__init__ 1 false 1) [] false kw
           Examples.halves res
           (World (λ n, Examples.halves (S (S n))) kw
              [CRandom; CGetParams;
               CTarget "image" Apply (VArray Examples.image10)
                 (<["rows" := VInt 10]>
                    (<["cols" := VInt 10]> {[ "dx" := VFloat (1 # 2) ]}))])).
  - apply (bool_decide_unpack _). reflexivity.
  - reflexivity.
Defined.

Lemma fire_without_image_witness :
  invoke Examples.Shift (__init__ 1 false 1) [] false
    [("mask", VArray Examples.image10)] Examples.halves
  = (Raise KeyError,
     World (λ n, Examples.halves (S (S n)))
       [("mask", VArray Examples.image10)] [CRandom; CGetParams]).
Proof.
  apply (fire_without_image Examples.Shift (__init__ 1 false 1) false
           [("mask", VArray Examples.image10)] Examples.halves
           {[ "dx" := VFloat (1 # 2) ]});
    reflexivity.
Defined.


Lemma apply_to_bboxes_stops_at_failure_witness :
  apply_to_bboxes Examples.Strict
    (Batch BBoxesInternalType
       (NdArray [3; 4] [1; 1; 5; 5; -1; 0; 2; 2; 2; 2; 6; 6]%Q)
       (NdArray [3; 0] []))
    ∅
  = (Raise ValueError,
     Batch BBoxesInternalType
       (NdArray [3; 4] [1 + 1; 1 + 1; 5 + 1; 5 + 1; -1; 0; 2; 2; 2; 2; 6; 6]%Q)
       (NdArray [3; 0] [])).
Proof.
  apply (apply_to_bboxes_stops_at_failure Examples.Strict ∅ BBoxesInternalType
           4 (NdArray [3; 0] [])
           [[1; 1; 5; 5]%Q] [[1 + 1; 1 + 1; 5 + 1; 5 + 1]%Q]
           [-1; 0; 2; 2]%Q [[2; 2; 6; 6]%Q] ValueError);
    try reflexivity.
  repeat constructor.
Defined.

Lemma alias_followed_once_witness :
  let m : gmap string string := <["a" := "b"]> {[ "b" := "image" ]} in
  _get_target_function Examples.Shift (add_targets (__init__ 1 false 1) m) "a"
  = Ok Identity ∧
  _get_target_function Examples.Shift (add_targets (__init__ 1 false 1) m) "b"
  = Ok Apply.
Proof.
  intros m. split.
  - etrans; [apply (alias_followed_once Examples.Shift _ m "a" "b")|];
      reflexivity.
  - etrans; [apply (alias_followed_once Examples.Shift _ m "b" "image")|];
      reflexivity.
Defined.

Lemma forced_call_draws_then_fires_witness :
  ∃ l, calls (invoke Examples.Shift (__init__ 1 true 0) [] false
                [("image", VArray Examples.image10)] Examples.halves).2
       = CRandom :: CGetParams :: l.
Proof.
  apply (forced_call_draws_then_fires Examples.Shift (__init__ 1 true 0) false
           [("image", VArray Examples.image10)] Examples.halves);
    reflexivity.
Defined.

Lemma missing_target_as_param_witness :
  generate Examples.Strict
    (World Examples.halves [("mask", VArray Examples.image10)] [CRandom])
  = (Raise AssertionError,
     World Examples.halves [("mask", VArray Examples.image10)]
       [CRandom; CGetParams]).
Proof.
  apply (missing_target_as_param Examples.Strict ∅ Examples.halves
           (World Examples.halves [("mask", VArray Examples.image10)] [CRandom])
           "image");
    try reflexivity.
  by constructor.
Defined.

Lemma generate_with_targets_witness :
  let w := World Examples.halves [("image", VArray Examples.image10)]
             [CRandom] in
  ∃ T : pdict,
    T !! "image" = Some (VArray Examples.image10) ∧
    generate Examples.Strict w
    = (let '(r, g2) :=
         get_params_dependent_on_targets Examples.Strict T Examples.halves in
       ((λ PD : pdict, PD ∪ ∅) <$> r,
        World g2 (objects w)
          (calls w ++ [CGetParams; CGetParamsDependentOnTargets T]))).
Proof.
  intros w.
  destruct (generate_with_targets Examples.Strict ∅ Examples.halves w)
    as (T & HT & Hgen); [done|reflexivity|reflexivity|].
  exists T. split; [|exact Hgen].
  by rewrite HT.
Defined.

Lemma image_only_leaves_others_witness :
  let w := World Examples.halves
             [("image", VArray Examples.image2);
              ("mask", VArray Examples.image2)] [] in
  objects (apply_with_params Examples.Invert (__init__ 1 false 1) (Some ∅) w).2
  = objects w ∧
  (apply_with_params Examples.Invert (__init__ 1 false 1) (Some ∅) w).1
  = Ok [("image", VArray (NdArray [2; 2] [1 - 0; 1 - 1; 1 - 1; 1 - 0]%Q));
        ("mask", VArray Examples.image2)].
Proof.
  intros w.
  destruct (image_only_leaves_others Examples.Invert (__init__ 1 false 1)
              (Some ∅) w eq_refl) as [Ho _].
  split; [exact Ho|reflexivity].
Defined.

Lemma to_dict_lookup_witness :
  ∃ names,
    get_transform_init_args_names Examples.noop_export = Ok names ∧
    ∀ k,
      (<["p" := CFloat (1 # 2)]>
         (<["always_apply" := CBool false]>
            ({[ "__class_fullname__" := CStr "NoOp" ]}
             : gmap string config))) !! k =
      if bool_decide (k ∈ names)
      then match getattr Examples.noop_export k with
           | Ok v => Some v
           | Raise _ => None
           end
      else if bool_decide (k = "p") then Some (CFloat (1 # 2))
      else if bool_decide (k = "always_apply") then Some (CBool false)
      else if bool_decide (k = "__class_fullname__") then Some (CStr "NoOp")
      else None.
Proof.
  apply (to_dict_lookup Examples.noop_export (__init__ 1 false (1 # 2))).
  reflexivity.
Defined.

End MoreExamples.
